(** * The Pub/Sub emulator supervisor (emulator.go), embedded in Rocq.

    The Go type [PubSubEmulator] becomes a record, the process-wide effects
    (standard output, spawned commands, the PUBSUB_EMULATOR_HOST variable)
    become an explicit [world], and the goroutines of one [Start] call become
    a labelled transition system driven by a schedule: the list of moments at
    which the Go scheduler, the emulator process, the timers and the caller's
    context act.  Outcomes of operating-system calls are inputs (an oracle),
    so that every statement holds whatever the host answers. *)

From Stdlib Require Import ZArith List String Ascii Bool Lia DecimalString.
Import ListNotations.
Open Scope string_scope.

(** ** Strings and formatting *)

(** [strings.Contains s substr]. *)
Fixpoint Contains (s substr : string) : bool :=
  prefix substr s ||
  match s with
  | EmptyString => false
  | String _ t => Contains t substr
  end.

(** The verb [%d] of [fmt.Sprintf] on an [int]. *)
Definition fmt_d (n : Z) : string := NilZero.string_of_int (Z.to_int n).

(** The double-quote character of the Windows command line. *)
Definition dquote : string := String "034"%char EmptyString.

(** The verb [%v] on an [error] value that may be nil. *)
Definition fmt_v (e : option string) : string :=
  match e with
  | Some m => m
  | None => "<nil>"
  end.

(** ** Errors *)

(** [ctx.Err()] of a finished context. *)
Inductive ctx_err : Type :=
| Canceled
| DeadlineExceeded.

(** Every error value emulator.go builds, one constructor per
    [fmt.Errorf] call site, plus the context errors it passes through. *)
Inductive error : Type :=
| ErrAlreadyRunning
| ErrDataDir (cause : string)
| ErrPortInUse (port : Z)
| ErrReadOutput (cause : string)
| ErrExitedImmediately (cause : option string)
| ErrStartTimeout
| ErrContext (c : ctx_err)
| ErrExitedUnexpectedly (cause : option string).

(** [err.Error()]. *)
Definition Error_string (e : error) : string :=
  match e with
  | ErrAlreadyRunning => "emulator already running"
  | ErrDataDir c => "failed to create data directory: " ++ c
  | ErrPortInUse p =>
      "emulator failed to start: port " ++ fmt_d p ++ " already in use"
  | ErrReadOutput c => "error reading emulator output: " ++ c
  | ErrExitedImmediately c =>
      "emulator process exited immediately: " ++ fmt_v c
  | ErrStartTimeout =>
      "timeout waiting for emulator to start (no 'Server started' message detected within 30 seconds)"
  | ErrContext Canceled => "context canceled"
  | ErrContext DeadlineExceeded => "context deadline exceeded"
  | ErrExitedUnexpectedly c =>
      "emulator process exited unexpectedly: " ++ fmt_v c
  end.

(** The error kinds of the specification.  The Go code has no kind field:
    the kind of an error is read off the call site that built it. *)
Inductive error_kind : Type :=
| ConfigurationError
| PortConflict
| EarlyExit
| Timeout
| UnexpectedCrash
| Cancelled
| AlreadyRunning
| StreamReadError.

Definition kind_of (e : error) : error_kind :=
  match e with
  | ErrAlreadyRunning => AlreadyRunning
  | ErrDataDir _ => ConfigurationError
  | ErrPortInUse _ => PortConflict
  | ErrReadOutput _ => StreamReadError
  | ErrExitedImmediately _ => EarlyExit
  | ErrStartTimeout => Timeout
  | ErrContext _ => Cancelled
  | ErrExitedUnexpectedly _ => UnexpectedCrash
  end.

(** ** The instance and the world around it *)

(** [*exec.Cmd]: the argument vector and the [Process] field, nil until
    [cmd.Start()] has succeeded. *)
Record Cmd : Type := mkCmd {
  Args : list string;
  Process : option Z
}.

(** [PubSubEmulator].  The mutex has no field: an operation that holds it
    is one atomic transition, and [Start], which holds it for its whole
    duration, is the one operation with intermediate states (see [sys]).
    [errChan] is the buffer of a channel of capacity 1. *)
Record PubSubEmulator : Type := mkEmulator {
  ProjectID : string;
  Port : Z;
  DataDir : string;
  hostPort : string;
  cmd : option Cmd;
  isRunning : bool;
  errChan : list error
}.

(** What the program does to its surroundings, in order. *)
Inductive event : Type :=
| Println (line : string)
| MkdirAll (path : string) (ok : bool)
| ProcStart (argv : list string) (ok : bool)
| ProcKill (pid : Z) (ok : bool)
| Run (argv : list string) (ok : bool)
| Setenv (key value : string)
| Unsetenv (key : string).

(** The instance, the value of PUBSUB_EMULATOR_HOST in the process
    environment, and the effects performed so far. *)
Record world : Type := mkWorld {
  em : PubSubEmulator;
  environ : option string;
  out : list event
}.

(** The host: [runtime.GOOS], the temporary-directory based data path, and
    the answers of the operating system to kills and commands. *)
Record host : Type := mkHost {
  GOOS : string;
  data_dir : string;
  kill_ok : Z -> bool;
  run_ok : list string -> bool
}.

Definition emit (e : event) (w : world) : world :=
  {| em := em w; environ := environ w; out := out w ++ [e] |}.

Definition with_em (f : PubSubEmulator -> PubSubEmulator) (w : world) : world :=
  {| em := f (em w); environ := environ w; out := out w |}.

Definition with_environ (v : option string) (w : world) : world :=
  {| em := em w; environ := v; out := out w |}.

Definition set_isRunning (b : bool) (e : PubSubEmulator) : PubSubEmulator :=
  {| ProjectID := ProjectID e; Port := Port e; DataDir := DataDir e;
     hostPort := hostPort e; cmd := cmd e; isRunning := b;
     errChan := errChan e |}.

Definition set_errChan (q : list error) (e : PubSubEmulator) : PubSubEmulator :=
  {| ProjectID := ProjectID e; Port := Port e; DataDir := DataDir e;
     hostPort := hostPort e; cmd := cmd e; isRunning := isRunning e;
     errChan := q |}.

Definition set_command (h : string) (c : option Cmd) (e : PubSubEmulator)
  : PubSubEmulator :=
  {| ProjectID := ProjectID e; Port := Port e; DataDir := DataDir e;
     hostPort := h; cmd := c; isRunning := isRunning e;
     errChan := errChan e |}.

Definition set_cmd (c : option Cmd) (e : PubSubEmulator) : PubSubEmulator :=
  set_command (hostPort e) c e.

Definition ENV_KEY : string := "PUBSUB_EMULATOR_HOST".

(** [em.cmd != nil && em.cmd.Process != nil], with the pid. *)
Definition process_handle (e : PubSubEmulator) : option Z :=
  match cmd e with
  | Some c => Process c
  | None => None
  end.

Section Supervisor.

Variable os : host.

Definition windows : bool := String.eqb (GOOS os) "windows".

(** [NewPubSubEmulator]. *)
Definition NewPubSubEmulator (projectID : string) (port : Z) : PubSubEmulator :=
  {| ProjectID := projectID; Port := port; DataDir := data_dir os;
     hostPort := ""; cmd := None; isRunning := false; errChan := [] |}.

(** [Host]. *)
Definition Host (e : PubSubEmulator) : string := hostPort e.

(** [IsRunning]. *)
Definition IsRunning (w : world) : bool := isRunning (em w).

(** ** Shutdown *)

(** [exec.Command(argv...).Run()] (or [.Output()]) with the result dropped. *)
Definition run_command (argv : list string) (w : world) : world :=
  emit (Run argv (run_ok os argv)) w.

(** Step 1: kill the launched process through its handle. *)
Definition kill_main (w : world) : world :=
  match process_handle (em w) with
  | Some pid =>
      emit (ProcKill pid (kill_ok os pid))
        (emit (Println "Killing main emulator process...") w)
  | None => w
  end.

(** Step 2: kill whatever is bound to the port. *)
Definition kill_by_port (w : world) : world :=
  let p := fmt_d (Port (em w)) in
  let w := emit (Println ("Killing processes using port " ++ p ++ "...")) w in
  if windows then
    run_command
      ["cmd"; "/c";
       "for /f " ++ dquote ++ "tokens=5" ++ dquote
         ++ " %a in ('netstat -aon ^| findstr :" ++ p
         ++ "') do taskkill /F /PID %a"] w
  else
    run_command ["kill"; "-9"; "$(lsof -ti :" ++ p ++ ")"]
      (run_command ["lsof"; "-ti"; ":" ++ p] w).

(** Step 3: kill the Java runtime by name. *)
Definition kill_java (w : world) : world :=
  let w := emit (Println "Killing Java processes...") w in
  if windows then run_command ["taskkill"; "/F"; "/IM"; "java.exe"] w
  else run_command ["pkill"; "-f"; "java"] w.

(** Step 4: kill processes of the emulator family by name. *)
Definition kill_emulators (w : world) : world :=
  let w := emit (Println "Killing emulator processes...") w in
  if windows then
    run_command ["taskkill"; "/F"; "/FI"; "WINDOWTITLE eq *gcloud*"]
      (run_command ["taskkill"; "/F"; "/FI"; "WINDOWTITLE eq *pubsub*"]
         (run_command ["taskkill"; "/F"; "/FI"; "WINDOWTITLE eq *emulator*"] w))
  else
    run_command ["pkill"; "-f"; "gcloud"]
      (run_command ["pkill"; "-f"; "pubsub"]
         (run_command ["pkill"; "-f"; "emulator"] w)).

(** Step 5: kill the process tree under the launched pid. *)
Definition kill_tree (w : world) : world :=
  match process_handle (em w) with
  | Some pid =>
      let w :=
        emit (Println ("Killing process tree with parent PID "
                         ++ fmt_d pid ++ "...")) w in
      if windows then
        run_command ["taskkill"; "/F"; "/T"; "/PID"; fmt_d pid] w
      else run_command ["pkill"; "-P"; fmt_d pid] w
  | None => w
  end.

(** Step 6: [os.Unsetenv]. *)
Definition clear_registry (w : world) : world :=
  emit (Unsetenv ENV_KEY) (with_environ None w).

(** The six steps in program order. *)
Definition escalation : list (world -> world) :=
  [kill_main; kill_by_port; kill_java; kill_emulators; kill_tree; clear_registry].

(** Straight-line execution of a list of steps. *)
Definition perform (steps : list (world -> world)) (w : world) : world :=
  fold_left (fun w step => step w) steps w.

Definition escalate (w : world) : world := perform escalation w.

(** [stopUnlocked]. *)
Definition stopUnlocked (w : world) : world :=
  if negb (isRunning (em w)) then w
  else
    let w := emit (Println "Stopping Pub/Sub emulator...") w in
    let w := escalate w in
    let w := with_em (set_isRunning false) w in
    emit (Println "Pub/Sub emulator stopped") w.

(** [Stop]: the mutex is taken and released around [stopUnlocked]. *)
Definition Stop (w : world) : world := stopUnlocked w.

(** ** Launch *)

(** [initializeDirectory]: [os.MkdirAll(em.DataDir, 0755)]. *)
Definition initializeDirectory (failure : option string) (w : world)
  : world * option error :=
  match failure with
  | Some c => (emit (MkdirAll (DataDir (em w)) false) w, Some (ErrDataDir c))
  | None => (emit (MkdirAll (DataDir (em w)) true) w, None)
  end.

(** The argument vector built by [prepareCommand]. *)
Definition command_line (e : PubSubEmulator) (hp : string) : list string :=
  ["gcloud"; "beta"; "emulators"; "pubsub"; "start";
   "--project=" ++ ProjectID e;
   "--host-port=" ++ hp;
   "--data-dir=" ++ DataDir e].

(** [prepareCommand]: it always returns nil. *)
Definition prepareCommand (w : world) : world :=
  let hp := "localhost:" ++ fmt_d (Port (em w)) in
  with_em (fun e => set_command hp (Some (mkCmd (command_line e hp) None)) e) w.

(** What the operating system answers to the three calls at the head of
    [startMonitoring]. *)
Inductive launch_result : Type :=
| StderrPipeFails
| StdoutPipeFails
| StartFails
| Started (pid : Z).

(** ** One Start in flight *)

(** A stream-monitor goroutine: not created, created by the [go] statement
    but not yet scheduled, reading its stream, or returned. *)
Inductive gstate : Type :=
| Absent
| Spawned
| Active
| Finished.

(** The process-watcher goroutine: as above, then blocked in [cmd.Wait()],
    blocked in the send on a full [errorCh], blocked on (or about to take)
    the mutex, or returned. *)
Inductive wstate : Type :=
| WAbsent
| WSpawned
| WWaiting
| WBlockedSend (e : error)
| WWantLock (cause : option string)
| WFinished.

(** Where the goroutine that runs [Start] is inside [waitForEmulator]:
    about to evaluate the first select, parked in it, woken by the
    three-second timer and about to evaluate the inner select, about to
    evaluate the second select, parked in it, or returned from [Start]
    with its result (the mutex is held until then). *)
Inductive coord : Type :=
| Entering1
| Parked1
| Draining
| Entering2
| Parked2
| Returned (r : option error).

(** [readyCh] is unbuffered and has no state of its own; [chans] is false
    when [startMonitoring] returned two nil channels.  [errorCh] is the
    buffer of a channel of capacity 2.  [timeoutCtx.Done()] is closed when
    its own deadline has passed or its parent [ctx] is done. *)
Record sys : Type := mkSys {
  wld : world;
  chans : bool;
  errorCh : list error;
  ctx_done : option ctx_err;
  deadline_passed : bool;
  mon_stderr : gstate;
  mon_stdout : gstate;
  watcher : wstate;
  pc : coord
}.

Definition set_wld (w : world) (s : sys) : sys :=
  mkSys w (chans s) (errorCh s) (ctx_done s) (deadline_passed s)
        (mon_stderr s) (mon_stdout s) (watcher s) (pc s).

Definition set_errorCh (q : list error) (s : sys) : sys :=
  mkSys (wld s) (chans s) q (ctx_done s) (deadline_passed s)
        (mon_stderr s) (mon_stdout s) (watcher s) (pc s).

Definition set_ctx_done (c : option ctx_err) (s : sys) : sys :=
  mkSys (wld s) (chans s) (errorCh s) c (deadline_passed s)
        (mon_stderr s) (mon_stdout s) (watcher s) (pc s).

Definition set_deadline_passed (b : bool) (s : sys) : sys :=
  mkSys (wld s) (chans s) (errorCh s) (ctx_done s) b
        (mon_stderr s) (mon_stdout s) (watcher s) (pc s).

Definition set_watcher (g : wstate) (s : sys) : sys :=
  mkSys (wld s) (chans s) (errorCh s) (ctx_done s) (deadline_passed s)
        (mon_stderr s) (mon_stdout s) g (pc s).

Definition set_pc (c : coord) (s : sys) : sys :=
  mkSys (wld s) (chans s) (errorCh s) (ctx_done s) (deadline_passed s)
        (mon_stderr s) (mon_stdout s) (watcher s) c.

Inductive stream : Type :=
| Stderr
| Stdout.

Definition monitor (st : stream) (s : sys) : gstate :=
  match st with
  | Stderr => mon_stderr s
  | Stdout => mon_stdout s
  end.

Definition set_monitor (st : stream) (g : gstate) (s : sys) : sys :=
  match st with
  | Stderr =>
      mkSys (wld s) (chans s) (errorCh s) (ctx_done s) (deadline_passed s)
            g (mon_stdout s) (watcher s) (pc s)
  | Stdout =>
      mkSys (wld s) (chans s) (errorCh s) (ctx_done s) (deadline_passed s)
            (mon_stderr s) g (watcher s) (pc s)
  end.

(** [startMonitoring]: the two pipes, [cmd.Start()], the two channels and
    the three [go] statements.  On any failure it returns nil channels and
    drops the error. *)
Definition startMonitoring (r : launch_result) (w : world) : sys :=
  let argv :=
    match cmd (em w) with
    | Some c => Args c
    | None => []
    end in
  match r with
  | StderrPipeFails | StdoutPipeFails =>
      mkSys w false [] None false Absent Absent WAbsent Entering1
  | StartFails =>
      mkSys (emit (ProcStart argv false) w)
            false [] None false Absent Absent WAbsent Entering1
  | Started pid =>
      mkSys (emit (ProcStart argv true)
               (with_em (fun e => set_cmd (Some (mkCmd argv (Some pid))) e) w))
            true [] None false Spawned Spawned WSpawned Entering1
  end.

(** The coordinator is parked in a select: a receiver is waiting on
    [readyCh] and on [errorCh]. *)
Definition parked (s : sys) : bool :=
  match pc s with
  | Parked1 | Parked2 => true
  | _ => false
  end.

(** The [readyCh] case of either select, followed by the tail of [Start]:
    the flag is set, the host address is published, nil is returned. *)
Definition publish (w : world) : world :=
  let w := with_em (set_isRunning true) w in
  emit (Setenv ENV_KEY (Host (em w))) (with_environ (Some (Host (em w))) w).

Definition on_ready (s : sys) : sys :=
  set_pc (Returned None) (set_wld (publish (wld s)) s).

(** Any failing case of either select: [em.stopUnlocked()], then the
    error is returned through [Start]. *)
Definition on_error (e : error) (s : sys) : sys :=
  set_pc (Returned (Some e)) (set_wld (stopUnlocked (wld s)) s).

(** [select { case readyCh <- struct{}{}: default: }] on the unbuffered
    channel: the send happens only when the receiver is parked. *)
Definition send_ready (s : sys) : sys :=
  if parked s then on_ready s else s.

(** A send on [errorCh] that finds the coordinator parked is handed to it
    directly; otherwise it goes to the buffer when there is room. *)
Definition offer_error (e : error) (s : sys) : option sys :=
  if parked s then Some (on_error e s)
  else if (List.length (errorCh s) <? 2)%nat
  then Some (set_errorCh (errorCh s ++ [e])%list s)
  else None.

(** [select { case errorCh <- e: default: }]. *)
Definition send_error_nonblocking (e : error) (s : sys) : sys :=
  match offer_error e s with
  | Some s' => s'
  | None => s
  end.

(** [errorCh <- e] in the watcher: it blocks while the buffer is full. *)
Definition send_error_blocking (e : error) (s : sys) : sys :=
  match offer_error e (set_watcher WFinished s) with
  | Some s' => s'
  | None => set_watcher (WBlockedSend e) s
  end.

(** The coordinator takes the head of [errorCh]; a sender blocked on the
    full buffer then completes its send. *)
Definition receive_error (s : sys) : sys :=
  match errorCh s with
  | [] => s
  | e :: q =>
      let s :=
        match watcher s with
        | WBlockedSend e' => set_watcher WFinished (set_errorCh (q ++ [e'])%list s)
        | _ => set_errorCh q s
        end in
      on_error e s
  end.

(** The bind-conflict markers of [monitorOutput]. *)
Definition bind_conflict (line : string) : bool :=
  Contains line "Address already in use"
  || Contains line "BindException"
  || Contains line "already in use: bind".

(** One iteration of the scanner loop of [monitorOutput]. *)
Definition monitor_line (st : stream) (line : string) (s : sys) : sys :=
  let s := set_wld (emit (Println line) (wld s)) s in
  let checkReady := match st with Stderr => true | Stdout => false end in
  let readyCh_not_nil := match st with Stderr => chans s | Stdout => false end in
  let s :=
    if checkReady && readyCh_not_nil && Contains line "Server started"
    then send_ready s else s in
  if bind_conflict line then
    set_monitor st Finished
      (send_error_nonblocking (ErrPortInUse (Port (em (wld s)))) s)
  else s.

(** The end of the scanner loop: [scanner.Err()]. *)
Definition monitor_end (st : stream) (failure : option string) (s : sys) : sys :=
  let s := set_monitor st Finished s in
  match failure with
  | Some c => send_error_nonblocking (ErrReadOutput c) s
  | None => s
  end.

(** [3*time.Second] as a [time.Duration]. *)
Definition grace : Z := 3 * 1000000000.

(** The part of [monitorProcess] after the early-exit test, run with the
    mutex held. *)
Definition crash_under_lock (cause : option string) (w : world) : world :=
  if isRunning (em w) then
    with_em (fun e =>
               let e := set_isRunning false e in
               if (List.length (errChan e) <? 1)%nat
               then set_errChan (errChan e ++ [ErrExitedUnexpectedly cause])%list e
               else e) w
  else w.

(** [monitorProcess] from the return of [cmd.Wait()] up to the mutex. *)
Definition monitor_exit (elapsed : Z) (cause : option string) (s : sys) : sys :=
  if (elapsed <? grace)%Z then send_error_blocking (ErrExitedImmediately cause) s
  else set_watcher (WWantLock cause) s.

(** The cases of a select that are ready when it is evaluated. *)
Inductive ready_case : Type :=
| CaseError
| CaseTimeout
| CaseCtx (c : ctx_err).

Definition error_ready (s : sys) : list ready_case :=
  match errorCh s with
  | [] => []
  | _ :: _ => [CaseError]
  end.

Definition ctx_ready (s : sys) : list ready_case :=
  match ctx_done s with
  | Some c => [CaseCtx c]
  | None => []
  end.

Definition timeout_ready (s : sys) : list ready_case :=
  match ctx_done s with
  | Some _ => [CaseTimeout]
  | None => if deadline_passed s then [CaseTimeout] else []
  end.

Definition take_case (c : ready_case) (s : sys) : sys :=
  match c with
  | CaseError => receive_error s
  | CaseTimeout => on_error ErrStartTimeout s
  | CaseCtx c => on_error (ErrContext c) s
  end.

(** Go picks at random among the cases that are ready when a select is
    evaluated; [pick] is that choice.  With none ready the goroutine parks,
    and the first send, close or timer to arrive decides the case. *)
Definition choose (pick : nat) (ready : list ready_case) (park : coord) (s : sys) : sys :=
  match ready with
  | [] => set_pc park s
  | c :: _ => take_case (nth (pick mod List.length ready) ready c) s
  end.

(** The coordinator evaluates the select it stands before.  [readyCh] is
    never ready at that moment (its only sender never waits), nor is the
    three-second timer, which the first select has just created; the
    second select has [timeoutCtx.Done()] and [ctx.Done()], the first only
    [ctx.Done()]. *)
Definition evaluate_select (pick : nat) (s : sys) : sys :=
  match pc s with
  | Entering1 => choose pick (error_ready s ++ ctx_ready s)%list Parked1 s
  | Draining =>
      match errorCh s with
      | [] => set_pc Entering2 s
      | _ :: _ => receive_error s
      end
  | Entering2 =>
      choose pick (error_ready s ++ timeout_ready s ++ ctx_ready s)%list Parked2 s
  | Parked1 | Parked2 | Returned _ => s
  end.

(** What can happen next while (and after) [Start] runs: a goroutine
    body begins; a monitor's scanner yields a line, or stops with or
    without a read error; [cmd.Wait()] returns in the watcher, [elapsed]
    being what [time.Since(startTime)] then reads; the watcher tries the
    mutex; the coordinator evaluates a select; the three-second timer
    fires; the thirty-second deadline passes; the caller's context ends. *)
Inductive label : Type :=
| GoMonitor (st : stream)
| GoWatcher
| Line (st : stream) (line : string)
| StreamEnd (st : stream) (failure : option string)
| Exit (elapsed : Z) (cause : option string)
| WatcherLock
| Select (pick : nat)
| GraceElapsed
| BudgetElapsed
| Cancel (c : ctx_err).

(** The guard at the head of each goroutine body:
    [select { case <-ctx.Done(): return; default: ... }]. *)
Definition ctx_is_done (s : sys) : bool :=
  match ctx_done s with
  | Some _ => true
  | None => false
  end.

(** One moment of the schedule.  A label that finds nobody to act on it
    (a line for a monitor that has returned, a timer nobody waits for, the
    mutex while [Start] holds it) leaves the state as it is. *)
Definition step (l : label) (s : sys) : sys :=
  match l with
  | GoMonitor st =>
      match monitor st s with
      | Spawned => set_monitor st (if ctx_is_done s then Finished else Active) s
      | _ => s
      end
  | GoWatcher =>
      match watcher s with
      | WSpawned => set_watcher (if ctx_is_done s then WFinished else WWaiting) s
      | _ => s
      end
  | Line st line =>
      match monitor st s with
      | Active => monitor_line st line s
      | _ => s
      end
  | StreamEnd st failure =>
      match monitor st s with
      | Active => monitor_end st failure s
      | _ => s
      end
  | Exit elapsed cause =>
      match watcher s with
      | WWaiting => monitor_exit elapsed cause s
      | _ => s
      end
  | WatcherLock =>
      match watcher s, pc s with
      | WWantLock cause, Returned _ =>
          set_watcher WFinished (set_wld (crash_under_lock cause (wld s)) s)
      | _, _ => s
      end
  | Select pick => evaluate_select pick s
  | GraceElapsed =>
      match pc s with
      | Parked1 => set_pc Draining s
      | _ => s
      end
  | BudgetElapsed =>
      match pc s with
      | Returned _ => s
      | Parked2 => on_error ErrStartTimeout (set_deadline_passed true s)
      | _ => set_deadline_passed true s
      end
  | Cancel c =>
      match ctx_done s with
      | Some _ => s
      | None =>
          let s := set_ctx_done (Some c) s in
          if parked s then on_error (ErrContext c) s else s
      end
  end.

(** The whole schedule, for statements about what follows [Start]. *)
Fixpoint run (sched : list label) (s : sys) : sys :=
  match sched with
  | [] => s
  | l :: rest => run rest (step l s)
  end.

(** The schedule up to the return of [Start]; [None] when the schedule
    ends with [Start] still waiting. *)
Fixpoint await (sched : list label) (s : sys) : option sys :=
  match pc s with
  | Returned _ => Some s
  | _ =>
      match sched with
      | [] => None
      | l :: rest => await rest (step l s)
      end
  end.

(** What one call of [Start] meets: the answer to [MkdirAll], the answer
    to the launch, and the schedule. *)
Record scenario : Type := mkScenario {
  mkdir_failure : option string;
  launch : launch_result;
  sched : list label
}.

(** The synchronous head of [Start], up to the entry of [waitForEmulator]. *)
Definition Start_launch (sc : scenario) (w : world) : world * option error + sys :=
  if isRunning (em w) then inl (w, Some ErrAlreadyRunning)
  else
    match initializeDirectory (mkdir_failure sc) w with
    | (w, Some e) => inl (w, Some e)
    | (w, None) => inr (startMonitoring (launch sc) (prepareCommand w))
    end.

(** [Start]: the world and the error it returns. *)
Definition Start (sc : scenario) (w : world) : option (world * option error) :=
  match Start_launch sc w with
  | inl r => Some r
  | inr s0 =>
      match await (sched sc) s0 with
      | Some s =>
          match pc s with
          | Returned r => Some (wld s, r)
          | _ => None
          end
      | None => None
      end
  end.

(** The instance as [NewPubSubEmulator] returns it, in a process whose
    environment holds [env0] for the registry variable. *)
Definition fresh (projectID : string) (port : Z) (env0 : option string) : world :=
  {| em := NewPubSubEmulator projectID port; environ := env0; out := [] |}.

(** ** Observations on worlds *)

(** The lines echoed by the stream monitors. *)
Definition echo (lines : list string) (w : world) : world :=
  fold_left (fun w line => emit (Println line) w) lines w.

(** What an effect attempts, without what the host answered. *)
Inductive attempt : Type :=
| Say (line : string)
| Mkdir (path : string)
| Spawn (argv : list string)
| Kill (pid : Z)
| Exec (argv : list string)
| Export (key value : string)
| Unexport (key : string).

Definition attempt_of (e : event) : attempt :=
  match e with
  | Println l => Say l
  | MkdirAll p _ => Mkdir p
  | ProcStart a _ => Spawn a
  | ProcKill p _ => Kill p
  | Run a _ => Exec a
  | Setenv k v => Export k v
  | Unsetenv k => Unexport k
  end.

(** An effect that only the shutdown sequence performs. *)
Definition shutdown_effect (e : event) : bool :=
  match e with
  | ProcKill _ _ | Run _ _ | Unsetenv _ => true
  | _ => false
  end.

(** Calls of [cmd.Start()] so far. *)
Definition launch_attempts (w : world) : nat :=
  List.length (filter (fun e => match e with ProcStart _ _ => true | _ => false end)
                      (out w)).

(** The worlds an instance built by [NewPubSubEmulator projectID port] can
    be in between calls: after any [Start] that returned, any [Stop], and
    any late run of the watcher's locked section.  Goroutines that outlive
    the [Start] that created them act on the instance only through that
    section. *)
Inductive reachable (projectID : string) (port : Z) : world -> Prop :=
| reach_new (env0 : option string) :
    reachable projectID port (fresh projectID port env0)
| reach_Start (sc : scenario) (w w' : world) (r : option error) :
    reachable projectID port w ->
    Start sc w = Some (w', r) ->
    reachable projectID port w'
| reach_Stop (w : world) :
    reachable projectID port w ->
    reachable projectID port (Stop w)
| reach_crash (cause : option string) (w : world) :
    reachable projectID port w ->
    reachable projectID port (crash_under_lock cause w).

End Supervisor.

(** The attempts of each of the six steps on a Windows ([win]) or other
    host, for a port and a process handle. *)
Definition attempts_kill_main (handle : option Z) : list attempt :=
  match handle with
  | Some pid => [Say "Killing main emulator process..."; Kill pid]
  | None => []
  end.

Definition attempts_kill_by_port (win : bool) (port : Z) : list attempt :=
  let p := fmt_d port in
  Say ("Killing processes using port " ++ p ++ "...") ::
  if win then
    [Exec ["cmd"; "/c";
           "for /f " ++ dquote ++ "tokens=5" ++ dquote
             ++ " %a in ('netstat -aon ^| findstr :" ++ p
             ++ "') do taskkill /F /PID %a"]]
  else
    [Exec ["lsof"; "-ti"; ":" ++ p];
     Exec ["kill"; "-9"; "$(lsof -ti :" ++ p ++ ")"]].

Definition attempts_kill_java (win : bool) : list attempt :=
  Say "Killing Java processes..." ::
  if win then [Exec ["taskkill"; "/F"; "/IM"; "java.exe"]]
  else [Exec ["pkill"; "-f"; "java"]].

Definition attempts_kill_emulators (win : bool) : list attempt :=
  Say "Killing emulator processes..." ::
  if win then
    [Exec ["taskkill"; "/F"; "/FI"; "WINDOWTITLE eq *emulator*"];
     Exec ["taskkill"; "/F"; "/FI"; "WINDOWTITLE eq *pubsub*"];
     Exec ["taskkill"; "/F"; "/FI"; "WINDOWTITLE eq *gcloud*"]]
  else
    [Exec ["pkill"; "-f"; "emulator"];
     Exec ["pkill"; "-f"; "pubsub"];
     Exec ["pkill"; "-f"; "gcloud"]].

Definition attempts_kill_tree (win : bool) (handle : option Z) : list attempt :=
  match handle with
  | Some pid =>
      [Say ("Killing process tree with parent PID " ++ fmt_d pid ++ "...");
       if win then Exec ["taskkill"; "/F"; "/T"; "/PID"; fmt_d pid]
       else Exec ["pkill"; "-P"; fmt_d pid]]
  | None => []
  end.

Definition attempts_clear_registry : list attempt := [Unexport ENV_KEY].

(** One whole shutdown sequence as the outside sees it. *)
Definition shutdown_attempts (win : bool) (port : Z) (handle : option Z) : list attempt :=
  (Say "Stopping Pub/Sub emulator..." ::
   attempts_kill_main handle
   ++ attempts_kill_by_port win port
   ++ attempts_kill_java win
   ++ attempts_kill_emulators win
   ++ attempts_kill_tree win handle
   ++ attempts_clear_registry
   ++ [Say "Pub/Sub emulator stopped"])%list.

(** ** Shapes of a waiting Start *)

(** The world at the entry of [waitForEmulator]. *)
Definition entry (sc : scenario) (w : world) : sys :=
  startMonitoring (launch sc)
    (prepareCommand (emit (MkdirAll (DataDir (em w)) true) w)).

(** What a step does to the world while [Start] is waiting: it echoes at
    most one line, and, when it delivers readiness, publishes. *)
Definition flight (s s' : sys) (lines : list string) : Prop :=
  (pc s' = Returned None /\ chans s = true
   /\ wld s' = publish (echo lines (wld s)))
  \/ (pc s' <> Returned None /\ wld s' = echo lines (wld s)).

(** ** Concrete hosts and scenarios *)

(** A Linux host on which every kill and every command fails. *)
Definition linux : host :=
  {| GOOS := "linux"; data_dir := "/tmp/pubsub-emulator-data";
     kill_ok := fun _ => false; run_ok := fun _ => false |}.

(** The emulator reports readiness once the coordinator is parked. *)
Definition sc_ready : scenario :=
  {| mkdir_failure := None; launch := Started 4242;
     sched := [Select 0; GoMonitor Stderr;
               Line Stderr "[pubsub] INFO: Server started, listening on 8085"] |}.

(** The port is taken: the emulator logs the bind failure. *)
Definition sc_conflict : scenario :=
  {| mkdir_failure := None; launch := Started 4243;
     sched := [Select 0; GoMonitor Stderr;
               Line Stderr "java.io.IOException: Failed to bind: Address already in use"] |}.

(** The same, and the process then exits one second after launch. *)
Definition sc_conflict_exit : scenario :=
  {| mkdir_failure := None; launch := Started 4243;
     sched := [GoMonitor Stderr; GoWatcher;
               Line Stderr "java.io.IOException: Failed to bind: Address already in use";
               Exit 1000000000 (Some "exit status 1");
               Select 0] |}.

(** The gcloud executable is not on the PATH: [cmd.Start()] fails. *)
Definition sc_no_executable : scenario :=
  {| mkdir_failure := None; launch := StartFails;
     sched := [Select 0; GraceElapsed; Select 0; Select 0; BudgetElapsed] |}.

(** The stderr pipe cannot be created. *)
Definition sc_no_pipe : scenario :=
  {| mkdir_failure := None; launch := StderrPipeFails;
     sched := [Select 0; GraceElapsed; Select 0; Select 0; BudgetElapsed] |}.

(** The readiness line is scanned before the coordinator reaches its first
    select; nothing else happens until the budget is spent. *)
Definition sc_ready_too_early : scenario :=
  {| mkdir_failure := None; launch := Started 4244;
     sched := [GoMonitor Stderr;
               Line Stderr "[pubsub] INFO: Server started, listening on 8085";
               Select 0; GraceElapsed; Select 0; Select 0; BudgetElapsed] |}.

(** The process exits five seconds after launch while its last lines,
    readiness among them, are still being scanned. *)
Definition late_exit_schedule : list label :=
  [Select 0; GoMonitor Stderr; GoWatcher; GraceElapsed; Select 0; Select 0;
   Exit 5000000000 (Some "signal: killed");
   WatcherLock;
   Line Stderr "[pubsub] INFO: Server started, listening on 8085";
   WatcherLock].

(** The exit at five seconds, as a whole scenario. *)
Definition sc_late_exit : scenario :=
  {| mkdir_failure := None; launch := Started 4245; sched := late_exit_schedule |}.

(** A label that is neither a move of the coordinator nor the end of its
    patience: no select evaluation, no cancellation, no deadline. *)
Definition calm (l : label) : bool :=
  match l with
  | Select _ | Cancel _ | BudgetElapsed => false
  | _ => true
  end.

(** The state [startMonitoring] leaves when it returns nil channels: no
    goroutine, nothing that could ever send. *)
Definition deaf (s : sys) : Prop :=
  chans s = false /\ errorCh s = [] /\ mon_stderr s = Absent
  /\ mon_stdout s = Absent /\ watcher s = WAbsent.

(** The only results a launch that failed can lead to. *)
Definition timeout_or_context (r : option error) : Prop :=
  r = Some ErrStartTimeout \/ exists c, r = Some (ErrContext c).

(** The coordinator is between selects with error [e] at the head of
    [errorCh], the caller's context live and the deadline not yet passed. *)
Definition error_pending (e : error) (s : sys) : Prop :=
  (pc s = Entering1 \/ pc s = Draining \/ pc s = Entering2)
  /\ ctx_done s = None /\ deadline_passed s = false
  /\ exists q, errorCh s = e :: q.




(** A fresh instance as main.go builds it, with nothing published yet. *)
Definition test_world : world := fresh linux "test-project" 8085 None.

(** The same instance after a successful [Start]. *)
Definition running_world : world :=
  match Start linux sc_ready test_world with
  | Some (w, _) => w
  | None => test_world
  end.

(** ** Accounting for errors *)

(** The moment of a schedule that accounts for an error [Start] returns
    from [waitForEmulator], for an instance on [port]. *)
Definition accounts_for (port : Z) (l : label) (e : error) : Prop :=
  match l, e with
  | Line _ line, ErrPortInUse p => p = port /\ bind_conflict line = true
  | StreamEnd _ (Some c), ErrReadOutput c' => c' = c
  | Exit elapsed c, ErrExitedImmediately c' => c' = c /\ (elapsed < grace)%Z
  | BudgetElapsed, ErrStartTimeout => True
  | Cancel _, ErrStartTimeout => True
  | Cancel c, ErrContext c' => c' = c
  | _, _ => False
  end.

Definition accounted (port : Z) (seen : list label) (e : error) : Prop :=
  exists l, In l seen /\ accounts_for port l e.

(** Every error in flight, queued, held by a blocked sender or already
    returned, is accounted for by a moment seen so far. *)
Definition provenance (port : Z) (seen : list label) (s : sys) : Prop :=
  Port (em (wld s)) = port
  /\ (forall e, In e (errorCh s) -> accounted port seen e)
  /\ (forall e, watcher s = WBlockedSend e -> accounted port seen e)
  /\ (forall c, ctx_done s = Some c -> In (Cancel c) seen)
  /\ (deadline_passed s = true -> In BudgetElapsed seen)
  /\ (forall e, pc s = Returned (Some e) -> accounted port seen e).

(** ** Shapes of a cancelled or settled Start *)

(** A label other than a select evaluation. *)
Definition not_select (l : label) : bool :=
  match l with
  | Select _ => false
  | _ => true
  end.

(** A goroutine that has not begun, or has returned. *)
Definition idle_monitor (g : gstate) : bool :=
  match g with
  | Spawned | Finished => true
  | _ => false
  end.

Definition idle_watcher (g : wstate) : bool :=
  match g with
  | WSpawned | WFinished => true
  | _ => false
  end.

(** The caller's context ended before any goroutine body began and the
    coordinator has not yet evaluated its first select: nobody monitors,
    nothing is queued, the world is [w]. *)
Definition muted (c : ctx_err) (w : world) (s : sys) : Prop :=
  pc s = Entering1 /\ ctx_done s = Some c /\ errorCh s = []
  /\ idle_monitor (mon_stderr s) = true /\ idle_monitor (mon_stdout s) = true
  /\ idle_watcher (watcher s) = true /\ wld s = w.

(** The watcher has nothing left to say to the instance: it returned, or
    it is stuck in its send on a full [errorCh]. *)
Definition spent_watcher (g : wstate) : bool :=
  match g with
  | WFinished | WBlockedSend _ => true
  | _ => false
  end.

(** [Start] returned nil and the watcher is spent; the instance is [e]
    and the registry holds [v]. *)
Definition settled (e : PubSubEmulator) (v : option string) (s : sys) : Prop :=
  pc s = Returned None /\ spent_watcher (watcher s) = true
  /\ em (wld s) = e /\ environ (wld s) = v.

(** * Properties *)

(** ** Shutdown *)

Section Shutdown_facts.

Variable os : host.

Lemma stopUnlocked_idle (w : world) :
  isRunning (em w) = false -> stopUnlocked os w = w.
Proof.
  intros H. unfold stopUnlocked. now rewrite H.
Qed.

Lemma em_emit (e : event) (w : world) : em (emit e w) = em w.
Proof. reflexivity. Qed.

Lemma em_run_command (argv : list string) (w : world) :
  em (run_command os argv w) = em w.
Proof. reflexivity. Qed.

(** No step of the escalation touches the instance. *)
Lemma escalation_em (f : world -> world) (w : world) :
  In f (escalation os) -> em (f w) = em w.
Proof.
  unfold escalation. simpl.
  intros [<- | [<- | [<- | [<- | [<- | [<- | []]]]]]].
  - unfold kill_main. now destruct (process_handle (em w)).
  - unfold kill_by_port. now destruct (windows os).
  - unfold kill_java. now destruct (windows os).
  - unfold kill_emulators. now destruct (windows os).
  - unfold kill_tree. destruct (process_handle (em w)); [|reflexivity].
    now destruct (windows os).
  - reflexivity.
Qed.

Lemma perform_em (steps : list (world -> world)) :
  (forall f, In f steps -> In f (escalation os)) ->
  forall w, em (perform steps w) = em w.
Proof.
  unfold perform.
  induction steps as [|f steps IH]; intros Hin w; simpl; [reflexivity|].
  rewrite IH by (intros g Hg; apply Hin; now right).
  apply escalation_em, Hin. now left.
Qed.

Lemma escalate_em (w : world) : em (escalate os w) = em w.
Proof. apply perform_em. auto. Qed.

Lemma stopUnlocked_fields (w : world) :
  let e := em (stopUnlocked os w) in
  ProjectID e = ProjectID (em w) /\ Port e = Port (em w)
  /\ DataDir e = DataDir (em w) /\ hostPort e = hostPort (em w)
  /\ cmd e = cmd (em w) /\ errChan e = errChan (em w)
  /\ isRunning e = false.
Proof.
  unfold stopUnlocked.
  destruct (isRunning (em w)) eqn:E; cbn [negb].
  - rewrite em_emit. unfold with_em; cbn [em set_isRunning].
    rewrite escalate_em, em_emit. cbn. repeat split; reflexivity.
  - cbn. repeat split; try reflexivity. exact E.
Qed.

Lemma stopUnlocked_stopped (w : world) :
  isRunning (em (stopUnlocked os w)) = false.
Proof. apply stopUnlocked_fields. Qed.

(** The trace of each step, outcomes erased. *)
Lemma trace_emit (e : event) (w : world) :
  map attempt_of (out (emit e w)) = (map attempt_of (out w) ++ [attempt_of e])%list.
Proof. unfold emit; simpl. now rewrite map_app. Qed.

Lemma trace_kill_main (w : world) :
  map attempt_of (out (kill_main os w)) =
  (map attempt_of (out w) ++ attempts_kill_main (process_handle (em w)))%list.
Proof.
  unfold kill_main, attempts_kill_main.
  destruct (process_handle (em w)).
  - rewrite !trace_emit, <- app_assoc. reflexivity.
  - now rewrite app_nil_r.
Qed.

Lemma trace_kill_by_port (w : world) :
  map attempt_of (out (kill_by_port os w)) =
  (map attempt_of (out w) ++ attempts_kill_by_port (windows os) (Port (em w)))%list.
Proof.
  unfold kill_by_port, attempts_kill_by_port, run_command.
  destruct (windows os); rewrite !trace_emit, <- !app_assoc; reflexivity.
Qed.

Lemma trace_kill_java (w : world) :
  map attempt_of (out (kill_java os w)) =
  (map attempt_of (out w) ++ attempts_kill_java (windows os))%list.
Proof.
  unfold kill_java, attempts_kill_java, run_command.
  destruct (windows os); rewrite !trace_emit, <- !app_assoc; reflexivity.
Qed.

Lemma trace_kill_emulators (w : world) :
  map attempt_of (out (kill_emulators os w)) =
  (map attempt_of (out w) ++ attempts_kill_emulators (windows os))%list.
Proof.
  unfold kill_emulators, attempts_kill_emulators, run_command.
  destruct (windows os); rewrite !trace_emit, <- !app_assoc; reflexivity.
Qed.

Lemma trace_kill_tree (w : world) :
  map attempt_of (out (kill_tree os w)) =
  (map attempt_of (out w) ++ attempts_kill_tree (windows os) (process_handle (em w)))%list.
Proof.
  unfold kill_tree, attempts_kill_tree, run_command.
  destruct (process_handle (em w)).
  - destruct (windows os); rewrite !trace_emit, <- !app_assoc; reflexivity.
  - now rewrite app_nil_r.
Qed.

Lemma trace_clear_registry (w : world) :
  map attempt_of (out (clear_registry w)) =
  (map attempt_of (out w) ++ attempts_clear_registry)%list.
Proof.
  unfold clear_registry. now rewrite trace_emit.
Qed.

Lemma trace_escalate (w : world) :
  map attempt_of (out (escalate os w)) =
  (map attempt_of (out w)
   ++ attempts_kill_main (process_handle (em w))
   ++ attempts_kill_by_port (windows os) (Port (em w))
   ++ attempts_kill_java (windows os)
   ++ attempts_kill_emulators (windows os)
   ++ attempts_kill_tree (windows os) (process_handle (em w))
   ++ attempts_clear_registry)%list.
Proof.
  unfold escalate, perform, escalation. cbn [fold_left].
  rewrite trace_clear_registry, trace_kill_tree, trace_kill_emulators,
    trace_kill_java, trace_kill_by_port, trace_kill_main.
  assert (E1 : em (kill_main os w) = em w)
    by (apply escalation_em; unfold escalation; simpl; auto).
  assert (E2 : forall v, em (kill_by_port os v) = em v)
    by (intros v; apply escalation_em; unfold escalation; simpl; auto).
  assert (E3 : forall v, em (kill_java os v) = em v)
    by (intros v; apply escalation_em; unfold escalation; simpl; auto).
  assert (E4 : forall v, em (kill_emulators os v) = em v)
    by (intros v; apply escalation_em; unfold escalation; simpl; auto 6).
  rewrite E4, E3, E2, !E1.
  now rewrite <- !app_assoc.
Qed.

Lemma trace_stopUnlocked (w : world) :
  isRunning (em w) = true ->
  map attempt_of (out (stopUnlocked os w)) =
  (map attempt_of (out w)
   ++ shutdown_attempts (windows os) (Port (em w)) (process_handle (em w)))%list.
Proof.
  intros H. unfold stopUnlocked. rewrite H. cbn [negb].
  rewrite trace_emit.
  change (out (with_em (set_isRunning false)
                 (escalate os (emit (Println "Stopping Pub/Sub emulator...") w))))
    with (out (escalate os (emit (Println "Stopping Pub/Sub emulator...") w))).
  rewrite trace_escalate, trace_emit, em_emit.
  unfold shutdown_attempts.
  rewrite <- !app_assoc. reflexivity.
Qed.

Lemma environ_stopUnlocked (w : world) :
  isRunning (em w) = true -> environ (stopUnlocked os w) = None.
Proof.
  intros H. unfold stopUnlocked. rewrite H. reflexivity.
Qed.

Lemma Stop_iter (n : nat) (w : world) :
  Nat.iter (S n) (Stop os) w = Stop os w.
Proof.
  induction n as [|n IH]; [reflexivity|].
  change (Nat.iter (S (S n)) (Stop os) w) with (Stop os (Nat.iter (S n) (Stop os) w)).
  rewrite IH. unfold Stop.
  apply stopUnlocked_idle, stopUnlocked_stopped.
Qed.

End Shutdown_facts.

(** ** One Start in flight *)

Arguments Contains : simpl never.
Arguments bind_conflict : simpl never.
Arguments fmt_d : simpl never.
Arguments stopUnlocked : simpl never.
Arguments publish : simpl never.
Arguments Nat.modulo : simpl never.
Arguments Z.ltb : simpl never.

(** Case analysis on the first test found in hypothesis [H]. *)
Ltac split_test H :=
  match type of H with
  | context [match ?x with _ => _ end] =>
      lazymatch x with
      | context [match _ with _ => _ end] => fail
      | _ => destruct x eqn:?
      end
  end.

Section Flight_facts.

Variable os : host.

Lemma em_echo (lines : list string) (w : world) : em (echo lines w) = em w.
Proof.
  revert w. unfold echo.
  induction lines as [|l lines IH]; intros w; simpl; [reflexivity|].
  now rewrite IH.
Qed.

Lemma environ_echo (lines : list string) (w : world) :
  environ (echo lines w) = environ w.
Proof.
  revert w. unfold echo.
  induction lines as [|l lines IH]; intros w; simpl; [reflexivity|].
  now rewrite IH.
Qed.

Lemma out_echo (lines : list string) (w : world) :
  out (echo lines w) = (out w ++ map Println lines)%list.
Proof.
  revert w. unfold echo.
  induction lines as [|l lines IH]; intros w; simpl.
  - now rewrite app_nil_r.
  - rewrite IH. simpl. now rewrite <- app_assoc.
Qed.

Lemma echo_app (l1 l2 : list string) (w : world) :
  echo l2 (echo l1 w) = echo (l1 ++ l2) w.
Proof. unfold echo. now rewrite fold_left_app. Qed.

Lemma step_in_flight (l : label) (s : sys) :
  isRunning (em (wld s)) = false ->
  (forall r, pc s <> Returned r) ->
  chans (step os l s) = chans s /\ exists lines, flight s (step os l s) lines.
Proof.
  intros Hidle Hpc.
  assert (Hstop : stopUnlocked os (wld s) = wld s)
    by now apply stopUnlocked_idle.
  assert (Hstop' : forall line, stopUnlocked os (emit (Println line) (wld s))
                                = emit (Println line) (wld s))
    by (intros; now apply stopUnlocked_idle).
  remember (step os l s) as s' eqn:E.
  destruct s as [w ch q cd dp me mo wa p]. cbn [wld chans pc] in *.
  unfold step, monitor_line, monitor_end, monitor_exit, evaluate_select,
    choose, take_case, send_error_blocking, send_error_nonblocking,
    offer_error, send_ready, receive_error, on_error, on_ready, parked,
    error_ready, ctx_ready, timeout_ready, ctx_is_done,
    monitor, set_monitor, set_watcher, set_pc, set_wld, set_errorCh,
    set_ctx_done, set_deadline_passed in E.
  cbn [wld chans errorCh ctx_done deadline_passed mon_stderr mon_stdout
       watcher pc] in E.
  destruct l as [st | | st line | st failure | elapsed cause | | pick | | | c].
  all: try destruct st.
  all: try destruct failure.
  all: destruct p; try (exfalso; eapply Hpc; reflexivity).
  all: repeat (split_test E; cbn [wld chans errorCh ctx_done deadline_passed
                                  mon_stderr mon_stdout watcher pc app nth
                                  List.length andb] in E).
  all: subst s'; cbn [wld chans pc]; rewrite ?Hstop, ?Hstop'.
  all: split; [reflexivity|].
  all: try (exists []; right; split; [discriminate|reflexivity]).
  all: try (exists [line]; right; split; [discriminate|reflexivity]).
  all: exists [line]; left; split; [reflexivity|split; [|reflexivity]].
  all: match goal with
       | H : (_ && _)%bool = true |- _ => apply andb_prop in H; apply H
       end.
Qed.

Lemma await_returned (sched : list label) (s : sys) (r : option error) :
  pc s = Returned r -> await os sched s = Some s.
Proof.
  intros H. destruct sched; simpl; now rewrite H.
Qed.

Lemma await_waiting (l : label) (rest : list label) (s : sys) :
  (forall r, pc s <> Returned r) ->
  await os (l :: rest) s = await os rest (step os l s).
Proof.
  intros H. simpl. destruct (pc s); try reflexivity.
  exfalso. eapply H. reflexivity.
Qed.

(** From the entry of [waitForEmulator] to the return of [Start]: the
    monitors echo lines; a success publishes, a failure changes nothing
    else. *)
Lemma await_in_flight (sched : list label) :
  forall s s',
    isRunning (em (wld s)) = false ->
    (forall r, pc s <> Returned r) ->
    await os sched s = Some s' ->
    exists lines,
      (pc s' = Returned None /\ chans s = true
       /\ wld s' = publish (echo lines (wld s)))
      \/ (exists e, pc s' = Returned (Some e) /\ wld s' = echo lines (wld s)).
Proof.
  induction sched as [|l rest IH]; intros s s' Hidle Hpc Haw.
  - simpl in Haw. destruct (pc s) eqn:E; try discriminate.
    exfalso. eapply Hpc. reflexivity.
  - rewrite await_waiting in Haw by exact Hpc.
    destruct (step_in_flight l s Hidle Hpc) as [Hch [lines [H | H]]].
    + destruct H as [Hp [Hc Hw]].
      rewrite (await_returned rest _ _ Hp) in Haw. injection Haw as <-.
      exists lines. left. auto.
    + destruct H as [Hp Hw].
      destruct (pc (step os l s)) as [| | | | |[e|]] eqn:E;
        try (destruct (IH (step os l s) s') as [lines' Hres];
             [rewrite Hw, em_echo; exact Hidle
             |intros r; rewrite E; discriminate
             |exact Haw
             |exists (lines ++ lines')%list;
              rewrite Hch, Hw, echo_app in Hres; exact Hres]).
      * rewrite (await_returned rest _ _ E) in Haw. injection Haw as <-.
        exists lines. right. exists e. auto.
      * now contradiction Hp.
Qed.

Lemma em_publish (w : world) : em (publish w) = set_isRunning true (em w).
Proof. reflexivity. Qed.

Lemma environ_publish (w : world) : environ (publish w) = Some (hostPort (em w)).
Proof. reflexivity. Qed.

Lemma out_publish (w : world) :
  out (publish w) = (out w ++ [Setenv ENV_KEY (hostPort (em w))])%list.
Proof. reflexivity. Qed.

Lemma entry_idle (sc : scenario) (w : world) :
  isRunning (em w) = false -> isRunning (em (wld (entry sc w))) = false.
Proof.
  intros H. unfold entry, startMonitoring. now destruct (launch sc).
Qed.

Lemma entry_pc (sc : scenario) (w : world) : pc (entry sc w) = Entering1.
Proof. unfold entry, startMonitoring. now destruct (launch sc). Qed.

Lemma entry_fields (sc : scenario) (w : world) :
  let e := em (wld (entry sc w)) in
  ProjectID e = ProjectID (em w) /\ Port e = Port (em w)
  /\ DataDir e = DataDir (em w)
  /\ hostPort e = "localhost:" ++ fmt_d (Port (em w))
  /\ errChan e = errChan (em w)
  /\ environ (wld (entry sc w)) = environ w.
Proof.
  unfold entry, startMonitoring. destruct (launch sc); cbn; auto 10.
Qed.

Lemma entry_chans (sc : scenario) (w : world) :
  chans (entry sc w) = true ->
  exists pid, launch sc = Started pid
              /\ process_handle (em (wld (entry sc w))) = Some pid.
Proof.
  unfold entry, startMonitoring.
  destruct (launch sc) as [| | |pid]; cbn; try discriminate.
  intros _. now exists pid.
Qed.

(** The three ways [Start] returns. *)
Lemma Start_cases (sc : scenario) (w w' : world) (r : option error) :
  Start os sc w = Some (w', r) ->
  (isRunning (em w) = true /\ w' = w /\ r = Some ErrAlreadyRunning)
  \/ (isRunning (em w) = false
      /\ exists c, mkdir_failure sc = Some c
                   /\ w' = emit (MkdirAll (DataDir (em w)) false) w
                   /\ r = Some (ErrDataDir c))
  \/ (isRunning (em w) = false /\ mkdir_failure sc = None
      /\ exists lines,
          (r = None /\ chans (entry sc w) = true
           /\ w' = publish (echo lines (wld (entry sc w))))
          \/ (exists e, r = Some e /\ w' = echo lines (wld (entry sc w)))).
Proof.
  unfold Start, Start_launch, initializeDirectory.
  destruct (isRunning (em w)) eqn:Hrun.
  - intros [= <- <-]. left. auto.
  - destruct (mkdir_failure sc) as [c|] eqn:Hmk.
    + intros [= <- <-]. right. left. split; [reflexivity|]. now exists c.
    + fold (entry sc w).
      destruct (await os (sched sc) (entry sc w)) as [s|] eqn:Haw;
        [|discriminate].
      intros H. right. right. split; [reflexivity|]. split; [reflexivity|].
      destruct (await_in_flight _ _ _ (entry_idle sc w Hrun)
                  ltac:(intros r0; rewrite entry_pc; discriminate) Haw)
        as [lines [[Hp [Hc Hw]] | [e [Hp Hw]]]];
        rewrite Hp in H; injection H as <- <-; exists lines.
      * left. auto.
      * right. exists e. auto.
Qed.

End Flight_facts.

(** ** Start returns *)




(** ** Between calls *)

Section Instance_facts.

Variable os : host.

Lemma crash_under_lock_fields (cause : option string) (w : world) :
  Port (em (crash_under_lock cause w)) = Port (em w)
  /\ hostPort (em (crash_under_lock cause w)) = hostPort (em w)
  /\ cmd (em (crash_under_lock cause w)) = cmd (em w)
  /\ isRunning (em (crash_under_lock cause w)) = false.
Proof.
  unfold crash_under_lock.
  destruct (isRunning (em w)) eqn:E; [|repeat split; exact E].
  cbn [with_em em].
  destruct (List.length (errChan (set_isRunning false (em w))) <? 1)%nat;
    repeat split; reflexivity.
Qed.

(** A running instance was launched by this supervisor on its own port. *)
Lemma reachable_inv (projectID : string) (port : Z) (w : world) :
  reachable os projectID port w ->
  Port (em w) = port
  /\ (isRunning (em w) = true ->
      hostPort (em w) = "localhost:" ++ fmt_d port
      /\ exists pid, process_handle (em w) = Some pid).
Proof.
  induction 1 as [env0 | sc w w' r Hreach [IHp IHr] HS | w Hreach [IHp IHr]
                 | cause w Hreach [IHp IHr]].
  - split; [reflexivity|]. cbn. discriminate.
  - destruct (Start_cases os sc w w' r HS)
      as [[Hrun [-> _]] | [[Hrun [c [_ [-> _]]]] | [Hrun [_ [lines Hres]]]]].
    + auto.
    + split; [exact IHp|]. cbn. rewrite Hrun. discriminate.
    + destruct (entry_fields sc w) as [_ [Hport [_ [Hhost _]]]].
      destruct Hres as [[_ [Hch ->]] | [e [_ ->]]].
      * rewrite em_publish. cbn [Port hostPort set_isRunning].
        rewrite !em_echo, Hport, Hhost, IHp.
        split; [reflexivity|]. intros _. split; [reflexivity|].
        destruct (entry_chans sc w Hch) as [pid [_ Hpid]].
        exists pid. exact Hpid.
      * rewrite em_echo, Hport, (entry_idle sc w Hrun).
        split; [exact IHp|discriminate].
  - unfold Stop.
    destruct (stopUnlocked_fields os w) as [_ [Hp [_ [_ [_ [_ Hr]]]]]].
    rewrite Hp, Hr. split; [exact IHp|discriminate].
  - destruct (crash_under_lock_fields cause w) as [Hp [_ [_ Hr]]].
    rewrite Hp, Hr. split; [exact IHp|discriminate].
Qed.

Lemma launch_attempts_emit (e : event) (w : world) :
  launch_attempts (emit e w) =
  (launch_attempts w + match e with ProcStart _ _ => 1 | _ => 0 end)%nat.
Proof.
  unfold launch_attempts, emit; cbn [out].
  rewrite filter_app, length_app. now destruct e.
Qed.

Lemma launch_attempts_echo (lines : list string) (w : world) :
  launch_attempts (echo lines w) = launch_attempts w.
Proof.
  revert w. unfold echo.
  induction lines as [|l lines IH]; intros w; cbn [fold_left]; [reflexivity|].
  rewrite IH, launch_attempts_emit. lia.
Qed.

Lemma launch_attempts_entry (sc : scenario) (w : world) :
  launch_attempts (wld (entry sc w)) =
  (launch_attempts w
   + match launch sc with Started _ | StartFails => 1 | _ => 0 end)%nat.
Proof.
  unfold entry, startMonitoring.
  destruct (launch sc); cbn [wld]; rewrite ?launch_attempts_emit;
    unfold launch_attempts; cbn [out with_em prepareCommand emit];
    rewrite ?filter_app, ?length_app; cbn; lia.
Qed.

End Instance_facts.

(** * The claims *)



(** C6.  [Stop] is idempotent: on a never-started instance (and on any
    instance whose flag is false) it changes nothing and performs no
    effect; [n >= 1] calls in a row on a running instance perform the
    shutdown sequence exactly once and leave what one call leaves. *)
Theorem Stop_idempotent (os : host) :
  (forall projectID port env0,
      Stop os (fresh os projectID port env0) = fresh os projectID port env0)
  /\ (forall w, isRunning (em w) = false -> Stop os w = w)
  /\ (forall w n,
         isRunning (em w) = true ->
         (1 <= n)%nat ->
         Nat.iter n (Stop os) w = Stop os w
         /\ map attempt_of (out (Nat.iter n (Stop os) w)) =
            (map attempt_of (out w)
             ++ shutdown_attempts (windows os) (Port (em w))
                  (process_handle (em w)))%list).
Proof.
  split; [|split].
  - intros. apply stopUnlocked_idle. reflexivity.
  - intros w H. now apply stopUnlocked_idle.
  - intros w n Hrun Hn.
    destruct n as [|n]; [lia|].
    rewrite Stop_iter. split; [reflexivity|].
    now apply trace_stopUnlocked.
Qed.

Lemma Stop_idempotent_witness :
  Nat.iter 3 (Stop linux) running_world = Stop linux running_world
  /\ map attempt_of (out (Nat.iter 3 (Stop linux) running_world)) =
     (map attempt_of (out running_world)
      ++ shutdown_attempts false 8085 (Some 4242%Z))%list.
Proof.
  destruct (Stop_idempotent linux) as [_ [_ H]].
  apply (H running_world 3%nat); [reflexivity|lia].
Defined.

(** C7.  [Start] on an instance that is already running fails at once
    with "emulator already running" and leaves the whole world as it
    was: flag, host address, process handle and registry entry. *)
Theorem Start_on_running_rejected (os : host) (sc : scenario) (w : world) :
  isRunning (em w) = true ->
  Start os sc w = Some (w, Some ErrAlreadyRunning)
  /\ Error_string ErrAlreadyRunning = "emulator already running".
Proof.
  intros H. unfold Start, Start_launch. now rewrite H.
Qed.

Lemma Start_on_running_rejected_witness :
  Start linux sc_conflict running_world
  = Some (running_world, Some ErrAlreadyRunning)
  /\ Error_string ErrAlreadyRunning = "emulator already running".
Proof.
  apply (Start_on_running_rejected linux sc_conflict running_world).
  reflexivity.
Defined.

(** C8.  On a running instance the shutdown procedure attempts the six
    steps in their fixed order (handle, port, runtime name, emulator
    family names, process tree, registry), whatever the host answers to
    each kill and command; the running flag is still true after every
    prefix of the six steps and false once all of them have been
    attempted. *)
Theorem shutdown_sequence_order
  (os : host) (projectID : string) (port : Z) (w : world) :
  reachable os projectID port w ->
  isRunning (em w) = true ->
  exists pid,
    process_handle (em w) = Some pid
    /\ (forall os',
           GOOS os' = GOOS os ->
           map attempt_of (out (stopUnlocked os' w)) =
           (map attempt_of (out w)
            ++ Say "Stopping Pub/Sub emulator..."
               :: attempts_kill_main (Some pid)
               ++ attempts_kill_by_port (windows os) port
               ++ attempts_kill_java (windows os)
               ++ attempts_kill_emulators (windows os)
               ++ attempts_kill_tree (windows os) (Some pid)
               ++ attempts_clear_registry
               ++ [Say "Pub/Sub emulator stopped"])%list)
    /\ (forall k,
           (k <= 6)%nat ->
           isRunning
             (em (perform (firstn k (escalation os))
                    (emit (Println "Stopping Pub/Sub emulator...") w))) = true)
    /\ stopUnlocked os w =
       emit (Println "Pub/Sub emulator stopped")
         (with_em (set_isRunning false)
            (perform (escalation os)
               (emit (Println "Stopping Pub/Sub emulator...") w)))
    /\ isRunning (em (stopUnlocked os w)) = false
    /\ environ (stopUnlocked os w) = None.
Proof.
  intros Hreach Hrun.
  destruct (reachable_inv os projectID port w Hreach) as [Hport Hlaunched].
  destruct (Hlaunched Hrun) as [_ [pid Hpid]].
  exists pid. split; [exact Hpid|].
  split; [|split; [|split; [|split]]].
  - intros os' Hos.
    rewrite (trace_stopUnlocked os' w Hrun), Hpid, Hport.
    unfold windows. rewrite Hos. reflexivity.
  - intros k Hk.
    rewrite (perform_em os).
    + rewrite em_emit. exact Hrun.
    + intros f Hf.
      do 7 (destruct k as [|k]; [cbn in Hf; unfold escalation; cbn; tauto|]).
      lia.
  - unfold stopUnlocked. rewrite Hrun. reflexivity.
  - apply stopUnlocked_stopped.
  - now apply environ_stopUnlocked.
Qed.

Lemma shutdown_sequence_order_witness :
  exists pid,
    process_handle (em running_world) = Some pid
    /\ map attempt_of (out (stopUnlocked linux running_world)) =
       (map attempt_of (out running_world)
        ++ shutdown_attempts false 8085 (Some pid))%list
    /\ isRunning (em (stopUnlocked linux running_world)) = false.
Proof.
  destruct (shutdown_sequence_order linux "test-project" 8085 running_world)
    as [pid [Hpid [Htrace [_ [_ [Hoff _]]]]]].
  - apply (reach_Start linux "test-project" 8085 sc_ready test_world
             running_world None).
    + apply reach_new.
    + vm_compute. reflexivity.
  - reflexivity.
  - exists pid. split; [exact Hpid|]. split; [|exact Hoff].
    apply (Htrace linux eq_refl).
Defined.

(** ** Failed startups *)

Lemma out_entry (sc : scenario) (w : world) :
  exists evs,
    out (wld (entry sc w)) = (out w ++ evs)%list
    /\ forallb (fun ev => negb (shutdown_effect ev)) evs = true.
Proof.
  unfold entry, startMonitoring.
  destruct (launch sc); cbn [wld out emit with_em prepareCommand];
    rewrite <- ?app_assoc; eexists; (split; [reflexivity|reflexivity]).
Qed.

(** C1.  The code breaks it: whatever made [Start] fail, no step of the
    shutdown sequence has run when it returns.  The [stopUnlocked] call of
    each failure path finds the flag false, which only readiness sets, and
    returns at its guard: the registry, the flag and the launched process
    are as they were, and the effects are the launch and echoed lines. *)
Theorem failed_Start_performs_no_shutdown
  (os : host) (sc : scenario) (w w' : world) (e : error) :
  Start os sc w = Some (w', Some e) ->
  environ w' = environ w
  /\ isRunning (em w') = isRunning (em w)
  /\ exists evs,
      out w' = (out w ++ evs)%list
      /\ forallb (fun ev => negb (shutdown_effect ev)) evs = true.
Proof.
  intros HS.
  destruct (Start_cases os sc w w' (Some e) HS)
    as [[Hrun [-> _]] | [[Hrun [c [_ [-> _]]]] | [Hrun [_ [lines Hres]]]]].
  - split; [reflexivity|]. split; [reflexivity|].
    exists []. now rewrite app_nil_r.
  - split; [reflexivity|]. split; [reflexivity|].
    eexists. split; reflexivity.
  - destruct Hres as [[Hr _] | [e' [_ ->]]]; [discriminate|].
    destruct (entry_fields sc w) as [_ [_ [_ [_ [_ Henv]]]]].
    rewrite environ_echo, em_echo, Henv, (entry_idle sc w Hrun), Hrun.
    split; [reflexivity|]. split; [reflexivity|].
    destruct (out_entry sc w) as [evs [Hout Hev]].
    exists (evs ++ map Println lines)%list.
    rewrite out_echo, Hout, app_assoc. split; [reflexivity|].
    rewrite forallb_app, Hev. cbn [andb].
    clear. induction lines as [|l lines IH]; [reflexivity|exact IH].
Qed.

Lemma port_conflict_runs_no_shutdown_step :
  let w' :=
    echo ["java.io.IOException: Failed to bind: Address already in use"]
      (wld (entry sc_conflict test_world)) in
  Start linux sc_conflict test_world = Some (w', Some (ErrPortInUse 8085))
  /\ kind_of (ErrPortInUse 8085) = PortConflict
  /\ Error_string (ErrPortInUse 8085)
     = "emulator failed to start: port 8085 already in use"
  /\ filter shutdown_effect (out w') = []
  /\ map attempt_of (out w') =
     [Mkdir "/tmp/pubsub-emulator-data";
      Spawn (command_line (em test_world) "localhost:8085");
      Say "java.io.IOException: Failed to bind: Address already in use"]
  /\ process_handle (em w') = Some 4243%Z
  /\ environ w' = environ test_world
  /\ isRunning (em w') = isRunning (em test_world).
Proof.
  intros w'.
  assert (HS : Start linux sc_conflict test_world
               = Some (w', Some (ErrPortInUse 8085)))
    by (vm_compute; reflexivity).
  destruct (failed_Start_performs_no_shutdown linux sc_conflict test_world w'
              (ErrPortInUse 8085) HS) as [Henv [Hflag _]].
  split; [exact HS|].
  split; [reflexivity|]. split; [reflexivity|].
  split; [vm_compute; reflexivity|]. split; [vm_compute; reflexivity|].
  split; [vm_compute; reflexivity|].
  split; [exact Henv|exact Hflag].
Defined.

(** ** Launch failures *)

Lemma step_deaf (os : host) (l : label) (s : sys) :
  deaf s ->
  (forall r, pc s <> Returned r) ->
  deaf (step os l s)
  /\ forall r, pc (step os l s) = Returned r -> timeout_or_context r.
Proof.
  intros [Hc [Hq [Hme [Hmo Hwa]]]] Hpc.
  remember (step os l s) as s' eqn:E.
  destruct s as [w ch q cd dp me mo wa p].
  cbn [chans errorCh mon_stderr mon_stdout watcher pc] in *. subst.
  unfold step, evaluate_select, choose, take_case, on_error, parked,
    error_ready, ctx_ready, timeout_ready, ctx_is_done,
    monitor, set_monitor, set_watcher, set_pc, set_wld, set_errorCh,
    set_ctx_done, set_deadline_passed.
  cbn [wld chans errorCh ctx_done deadline_passed mon_stderr mon_stdout
       watcher pc app].
  unfold deaf, timeout_or_context.
  destruct l as [st | | st line | st failure | elapsed cause | | pick | | | c].
  all: try destruct st.
  all: destruct p; try (exfalso; eapply Hpc; reflexivity).
  all: destruct cd as [c0|]; destruct dp.
  all: cbn [wld chans errorCh ctx_done deadline_passed mon_stderr mon_stdout
            watcher pc app List.length].
  all: try match goal with
           | |- context [nth ?i _ _] => destruct i as [|[|[|?]]]
           end.
  all: cbn [nth wld chans errorCh mon_stderr mon_stdout watcher pc].
  all: split; [repeat split; reflexivity|].
  all: intros r Hr; first [discriminate Hr | injection Hr as <-; eauto].
Qed.

Lemma await_deaf (os : host) (sched : list label) :
  forall s s',
    deaf s ->
    (forall r, pc s <> Returned r) ->
    await os sched s = Some s' ->
    forall r, pc s' = Returned r -> timeout_or_context r.
Proof.
  induction sched as [|l rest IH]; intros s s' Hdeaf Hpc Haw.
  - simpl in Haw. destruct (pc s) eqn:E; try discriminate.
    exfalso. eapply Hpc. reflexivity.
  - rewrite await_waiting in Haw by exact Hpc.
    destruct (step_deaf os l s Hdeaf Hpc) as [Hdeaf' Hret].
    destruct (pc (step os l s)) as [| | | | |r0] eqn:E;
      try (apply (IH (step os l s) s' Hdeaf');
           [intros r; rewrite E; discriminate|exact Haw]).
    rewrite (await_returned os rest _ _ E) in Haw. injection Haw as <-.
    intros r Hr. apply Hret. congruence.
Qed.

(** C2.  The code breaks it: when the executable cannot be started or a
    pipe cannot be opened, [Start] never reports a configuration error.
    [startMonitoring] drops the error and returns nil channels, so all
    [Start] can return is the thirty-second timeout or the caller's
    context error. *)
Theorem launch_failure_surfaces_as_timeout
  (os : host) (sc : scenario) (w w' : world) (r : option error) :
  isRunning (em w) = false ->
  mkdir_failure sc = None ->
  (forall pid, launch sc <> Started pid) ->
  Start os sc w = Some (w', r) ->
  timeout_or_context r
  /\ forall e, r = Some e -> kind_of e <> ConfigurationError.
Proof.
  intros Hidle Hmk Hlaunch HS.
  assert (H : timeout_or_context r);
    [|split; [exact H|];
      intros e ->; destruct H as [[= ->] | [c [= ->]]]; discriminate].
  revert HS.
  unfold Start, Start_launch, initializeDirectory. rewrite Hidle, Hmk.
  fold (entry sc w).
  destruct (await os (sched sc) (entry sc w)) as [s|] eqn:Haw; [|discriminate].
  destruct (pc s) as [| | | | |r0] eqn:Hp; try discriminate.
  intros [= _ <-].
  apply (await_deaf os (sched sc) (entry sc w) s); try assumption.
  - unfold entry, startMonitoring.
    destruct (launch sc) as [| | |pid]; try (repeat split; reflexivity).
    now contradiction (Hlaunch pid).
  - intros r. rewrite entry_pc. discriminate.
Qed.

Lemma missing_executable_reported_as_timeout :
  let w1 := wld (entry sc_no_executable test_world) in
  let w2 := wld (entry sc_no_pipe test_world) in
  Start linux sc_no_executable test_world = Some (w1, Some ErrStartTimeout)
  /\ Start linux sc_no_pipe test_world = Some (w2, Some ErrStartTimeout)
  /\ Error_string ErrStartTimeout
     = "timeout waiting for emulator to start (no 'Server started' message detected within 30 seconds)"
  /\ kind_of ErrStartTimeout = Timeout
  /\ timeout_or_context (Some ErrStartTimeout)
  /\ await linux [Select 0; GraceElapsed; Select 0; Select 0]
       (entry sc_no_executable test_world) = None.
Proof.
  intros w1 w2.
  assert (HS : Start linux sc_no_executable test_world
               = Some (w1, Some ErrStartTimeout))
    by (vm_compute; reflexivity).
  destruct (launch_failure_surfaces_as_timeout linux sc_no_executable
              test_world w1 (Some ErrStartTimeout)) as [Hres _].
  - reflexivity.
  - reflexivity.
  - intros pid. discriminate.
  - exact HS.
  - split; [exact HS|]. split; [vm_compute; reflexivity|].
    split; [reflexivity|]. split; [reflexivity|].
    split; [exact Hres|]. vm_compute. reflexivity.
Defined.

(** ** The readiness signal *)

(** C3.  The code breaks it: a readiness line scanned while the
    coordinator is not parked in a select is printed and otherwise lost.
    [readyCh] has no buffer, so the non-blocking send takes its default
    branch and nothing is retained for a later receive. *)
Theorem ready_signal_dropped_unless_parked (os : host) (line : string) (s : sys) :
  monitor Stderr s = Active ->
  parked s = false ->
  bind_conflict line = false ->
  step os (Line Stderr line) s = set_wld (emit (Println line) (wld s)) s.
Proof.
  intros Hmon Hpark Hbind.
  unfold step. rewrite Hmon. unfold monitor_line, send_ready.
  assert (Hp : parked (set_wld (emit (Println line) (wld s)) s) = false)
    by exact Hpark.
  rewrite Hp, Hbind.
  now destruct (true && chans (set_wld (emit (Println line) (wld s)) s)
                && Contains line "Server started").
Qed.

Lemma early_readiness_signal_is_lost :
  let line := "[pubsub] INFO: Server started, listening on 8085" in
  let s := step linux (GoMonitor Stderr) (entry sc_ready_too_early test_world) in
  let w' := emit (Println line) (wld s) in
  Contains line "Server started" = true
  /\ pc s = Entering1
  /\ step linux (Line Stderr line) s = set_wld w' s
  /\ Start linux sc_ready_too_early test_world = Some (w', Some ErrStartTimeout)
  /\ IsRunning w' = false
  /\ environ w' = None.
Proof.
  intros line s w'.
  split; [vm_compute; reflexivity|]. split; [reflexivity|].
  split.
  - apply (ready_signal_dropped_unless_parked linux line s); reflexivity.
  - split; [vm_compute; reflexivity|]. split; reflexivity.
Defined.

(** ** After a failed Start *)

Lemma launch_attempts_publish (w : world) :
  launch_attempts (publish w) = launch_attempts w.
Proof.
  unfold launch_attempts. rewrite out_publish, filter_app, length_app.
  cbn. lia.
Qed.

Lemma launch_attempts_Start
  (os : host) (sc : scenario) (w w' : world) (r : option error) :
  Start os sc w = Some (w', r) ->
  isRunning (em w) = false ->
  mkdir_failure sc = None ->
  launch_attempts w' = launch_attempts (wld (entry sc w)).
Proof.
  intros HS Hidle Hmk.
  destruct (Start_cases os sc w w' r HS)
    as [[Hrun _] | [[_ [c [Hc _]]] | [_ [_ [lines Hres]]]]];
    [congruence|congruence|].
  destruct Hres as [[_ [_ ->]] | [e [_ ->]]];
    now rewrite ?launch_attempts_publish, launch_attempts_echo.
Qed.

(** C4, as the code has it.  A [Start] that failed for any reason other
    than the instance already running made at most one launch attempt
    and leaves the flag false; the instance is not terminal: the next
    [Start] passes the guard and, when the directory and the pipes are
    available, calls [cmd.Start()] on a newly built command. *)
Theorem failed_Start_allows_fresh_launch
  (os : host) (sc : scenario) (w w1 : world) (e : error) :
  Start os sc w = Some (w1, Some e) ->
  e <> ErrAlreadyRunning ->
  isRunning (em w1) = false
  /\ (launch_attempts w1 <= S (launch_attempts w))%nat
  /\ forall sc2 pid,
      mkdir_failure sc2 = None ->
      launch sc2 = Started pid ->
      Start_launch sc2 w1 = inr (entry sc2 w1)
      /\ process_handle (em (wld (entry sc2 w1))) = Some pid
      /\ launch_attempts (wld (entry sc2 w1)) = S (launch_attempts w1)
      /\ forall w2 r,
          Start os sc2 w1 = Some (w2, r) ->
          launch_attempts w2 = S (launch_attempts w1).
Proof.
  intros HS He.
  assert (Hidle1 : isRunning (em w1) = false).
  { destruct (Start_cases os sc w w1 (Some e) HS)
      as [[_ [_ Hr]] | [[Hrun [c [_ [-> _]]]] | [Hrun [_ [lines Hres]]]]].
    - congruence.
    - exact Hrun.
    - destruct Hres as [[Hr _] | [e' [_ ->]]]; [discriminate|].
      rewrite em_echo. now apply entry_idle. }
  split; [exact Hidle1|]. split.
  - destruct (Start_cases os sc w w1 (Some e) HS)
      as [[_ [-> _]] | [[_ [c [_ [-> _]]]] | [_ [_ [lines Hres]]]]].
    + lia.
    + rewrite launch_attempts_emit. lia.
    + destruct Hres as [[Hr _] | [e' [_ ->]]]; [discriminate|].
      rewrite launch_attempts_echo, launch_attempts_entry.
      destruct (launch sc); lia.
  - intros sc2 pid Hmk Hl.
    assert (Hn : launch_attempts (wld (entry sc2 w1)) = S (launch_attempts w1))
      by (rewrite launch_attempts_entry, Hl; lia).
    split; [|split; [|split; [exact Hn|]]].
    + unfold Start_launch, initializeDirectory. now rewrite Hidle1, Hmk.
    + unfold entry, startMonitoring. rewrite Hl. reflexivity.
    + intros w2 r HS2.
      now rewrite (launch_attempts_Start os sc2 w1 w2 r HS2 Hidle1 Hmk).
Qed.

Lemma failed_Start_allows_fresh_launch_witness :
  let w1 :=
    echo ["java.io.IOException: Failed to bind: Address already in use"]
      (wld (entry sc_conflict test_world)) in
  let w2 :=
    publish (echo ["[pubsub] INFO: Server started, listening on 8085"]
               (wld (entry sc_ready w1))) in
  Start linux sc_conflict test_world = Some (w1, Some (ErrPortInUse 8085))
  /\ isRunning (em w1) = false
  /\ Start linux sc_ready w1 = Some (w2, None)
  /\ launch_attempts w2 = S (launch_attempts w1).
Proof.
  intros w1 w2.
  assert (HS : Start linux sc_conflict test_world
               = Some (w1, Some (ErrPortInUse 8085)))
    by (vm_compute; reflexivity).
  assert (HS2 : Start linux sc_ready w1 = Some (w2, None))
    by (vm_compute; reflexivity).
  destruct (failed_Start_allows_fresh_launch linux sc_conflict test_world
              w1 (ErrPortInUse 8085) HS)
    as [Hidle [_ Hnext]]; [discriminate|].
  destruct (Hnext sc_ready 4242%Z eq_refl eq_refl) as [_ [_ [_ Hcount]]].
  split; [exact HS|]. split; [exact Hidle|].
  split; [exact HS2|].
  exact (Hcount w2 None HS2).
Defined.

(** C4, as stated, fails: after the port-conflict failure a second
    [Start] on the same instance launches a second process and succeeds. *)
Lemma failed_Start_is_not_terminal :
  exists w1 w2,
    Start linux sc_conflict test_world = Some (w1, Some (ErrPortInUse 8085))
    /\ Start linux sc_ready w1 = Some (w2, None)
    /\ launch_attempts w1 = 1%nat
    /\ launch_attempts w2 = 2%nat
    /\ process_handle (em w2) = Some 4242%Z
    /\ IsRunning w2 = true.
Proof.
  eexists. eexists.
  split; [vm_compute; reflexivity|].
  split; [vm_compute; reflexivity|].
  repeat split; vm_compute; reflexivity.
Qed.

(** ** Early exit *)

Lemma calm_step_pending (os : host) (e : error) (l : label) (s : sys) :
  calm l = true ->
  error_pending e s ->
  error_pending e (step os l s).
Proof.
  intros Hcalm [Hpc [Hctx [Hdl [q Hq]]]].
  remember (step os l s) as s' eqn:E.
  destruct s as [w ch q0 cd dp me mo wa p].
  cbn [pc ctx_done deadline_passed errorCh] in *. subst q0 cd dp.
  unfold step, monitor_line, monitor_end, monitor_exit,
    send_error_blocking, send_error_nonblocking,
    offer_error, send_ready, on_error, on_ready, parked, ctx_is_done,
    monitor, set_monitor, set_watcher, set_pc, set_wld, set_errorCh in E.
  cbn [wld chans errorCh ctx_done deadline_passed mon_stderr mon_stdout
       watcher pc] in E.
  unfold error_pending.
  destruct l as [st | | st line | st failure | elapsed cause | | pick | | | c];
    try discriminate Hcalm.
  all: try destruct st.
  all: try destruct failure.
  all: destruct Hpc as [-> | [-> | ->]].
  all: repeat (split_test E; cbn [wld chans errorCh ctx_done deadline_passed
                                  mon_stderr mon_stdout watcher pc app andb]
                             in E).
  all: subst s'; cbn [pc ctx_done deadline_passed errorCh app].
  all: split; [tauto|]; split; [reflexivity|]; split; [reflexivity|].
  all: eexists; reflexivity.
Qed.

Lemma select_pending (os : host) (e : error) (pick : nat) (s : sys) :
  error_pending e s ->
  pc (step os (Select pick) s) = Returned (Some e).
Proof.
  intros [Hpc [Hctx [Hdl [q Hq]]]].
  destruct s as [w ch q0 cd dp me mo wa p].
  cbn [pc ctx_done deadline_passed errorCh] in *. subst q0 cd dp.
  unfold step, evaluate_select, choose, error_ready, ctx_ready, timeout_ready.
  cbn [pc errorCh ctx_done deadline_passed app List.length].
  rewrite Nat.mod_1_r. cbn [nth take_case].
  unfold receive_error. cbn [errorCh watcher].
  destruct Hpc as [-> | [-> | ->]]; destruct wa; reflexivity.
Qed.

Lemma await_pending (os : host) (e : error) (pick : nat) (post : list label) :
  forall pre s,
    Forall (fun l => calm l = true) pre ->
    error_pending e s ->
    exists s',
      await os (pre ++ Select pick :: post) s = Some s'
      /\ pc s' = Returned (Some e).
Proof.
  induction pre as [|l pre IH]; intros s Hcalm Hpend.
  - assert (Hw : forall r, pc s <> Returned r)
      by (destruct Hpend as [[H | [H | H]] _]; intros r; rewrite H; discriminate).
    cbn [app]. rewrite await_waiting by exact Hw.
    exists (step os (Select pick) s).
    split; [|now apply select_pending].
    apply (await_returned os post _ (Some e)). now apply select_pending.
  - assert (Hw : forall r, pc s <> Returned r)
      by (destruct Hpend as [[H | [H | H]] _]; intros r; rewrite H; discriminate).
    cbn [app]. rewrite await_waiting by exact Hw.
    inversion Hcalm as [|? ? Hl Hpre]; subst.
    apply IH; [exact Hpre|].
    now apply calm_step_pending.
Qed.

(** C9, as the code has it.  An exit the watcher sees less than three
    seconds after it began waiting is sent as the early-exit error on the
    startup error channel, whatever the running flag.  [Start] returns
    that error, and so not the timeout, when startup is still unresolved,
    no earlier error is queued, and the coordinator's next select is
    evaluated before any cancellation or deadline. *)
Theorem early_exit_reported
  (os : host) (s : sys) (elapsed : Z) (cause : option string)
  (pre post : list label) (pick : nat) :
  watcher s = WWaiting ->
  (elapsed < grace)%Z ->
  step os (Exit elapsed cause) s
  = send_error_blocking os (ErrExitedImmediately cause) s
  /\ ((forall r, pc s <> Returned r) ->
      errorCh s = [] ->
      ctx_done s = None ->
      deadline_passed s = false ->
      Forall (fun l => calm l = true) pre ->
      exists s',
        await os (Exit elapsed cause :: pre ++ Select pick :: post) s = Some s'
        /\ pc s' = Returned (Some (ErrExitedImmediately cause))
        /\ kind_of (ErrExitedImmediately cause) = EarlyExit).
Proof.
  intros Hwa Hel.
  assert (Hstep : step os (Exit elapsed cause) s
                  = send_error_blocking os (ErrExitedImmediately cause) s).
  { unfold step. rewrite Hwa. unfold monitor_exit.
    apply Z.ltb_lt in Hel. now rewrite Hel. }
  split; [exact Hstep|].
  intros Hpc Hq Hctx Hdl Hcalm.
  rewrite await_waiting by exact Hpc. rewrite Hstep.
  destruct s as [w ch q cd dp me mo wa p].
  cbn [pc errorCh ctx_done deadline_passed watcher] in *. subst q cd dp wa.
  unfold send_error_blocking, offer_error, parked, on_error, set_watcher,
    set_pc, set_wld, set_errorCh.
  cbn [pc errorCh wld chans ctx_done deadline_passed mon_stderr mon_stdout
       watcher List.length Nat.ltb Nat.leb app].
  destruct p as [| | | | |r]; try (exfalso; eapply Hpc; reflexivity).
  all: try (match goal with
            | |- context [await _ _ ?st] =>
                destruct (await_pending os (ErrExitedImmediately cause) pick
                            post pre st Hcalm) as [s' [Haw Hres]];
                [solve [unfold error_pending; cbn; eauto 10]
                |exists s'; auto]
            end).
  all: eexists; split;
    [eapply await_returned; reflexivity|split; reflexivity].
Qed.

Lemma early_exit_reported_witness :
  exists s',
    await linux
      (Exit 1000000000 None :: [Line Stdout "Executing: java"] ++ Select 0 :: [])
      (step linux GoWatcher (entry sc_ready test_world)) = Some s'
    /\ pc s' = Returned (Some (ErrExitedImmediately None))
    /\ kind_of (ErrExitedImmediately None) = EarlyExit.
Proof.
  destruct (early_exit_reported linux
              (step linux GoWatcher (entry sc_ready test_world))
              1000000000 None [Line Stdout "Executing: java"] [] 0)
    as [_ H].
  - reflexivity.
  - reflexivity.
  - apply H.
    + intros r. vm_compute. discriminate.
    + reflexivity.
    + reflexivity.
    + reflexivity.
    + repeat constructor.
Defined.

(** C9, as stated, fails: the process logs the bind conflict and exits
    one second after launch; the watcher does classify the exit as early,
    but its error queues behind the port error, which [Start] returns. *)
Lemma early_exit_behind_port_conflict :
  exists w',
    Start linux sc_conflict_exit test_world
    = Some (w', Some (ErrPortInUse 8085))
    /\ kind_of (ErrPortInUse 8085) <> EarlyExit
    /\ (1000000000 < grace)%Z
    /\ errorCh (run linux (firstn 4 (sched sc_conflict_exit))
                  (entry sc_conflict_exit test_world))
       = [ErrPortInUse 8085; ErrExitedImmediately (Some "exit status 1")]
    /\ pc (run linux (firstn 4 (sched sc_conflict_exit))
             (entry sc_conflict_exit test_world)) = Entering1.
Proof.
  eexists. split; [vm_compute; reflexivity|].
  split; [discriminate|]. split; [reflexivity|].
  split; vm_compute; reflexivity.
Qed.

(** ** Late exit *)

(** C10, as the code has it.  An exit the watcher sees three seconds or
    more after it began waiting sends nothing on the startup error channel
    and leaves the coordinator where it is; the watcher then needs the
    mutex, which [Start] holds until it returns.  With the mutex, it sends
    nothing when the flag is false; when readiness was resolved in the
    meantime it clears the flag and offers the crash to the fault channel,
    which keeps it when its one slot is free and drops it when an earlier
    crash is still unread there. *)
Theorem late_exit_signals_only_after_readiness
  (os : host) (s : sys) (elapsed : Z) (cause : option string) :
  watcher s = WWaiting ->
  (grace <= elapsed)%Z ->
  step os (Exit elapsed cause) s = set_watcher (WWantLock cause) s
  /\ forall s2,
      watcher s2 = WWantLock cause ->
      ((forall r, pc s2 <> Returned r) -> step os WatcherLock s2 = s2)
      /\ (isRunning (em (wld s2)) = false ->
          errorCh (step os WatcherLock s2) = errorCh s2
          /\ wld (step os WatcherLock s2) = wld s2
          /\ pc (step os WatcherLock s2) = pc s2)
      /\ (forall r,
             pc s2 = Returned r ->
             isRunning (em (wld s2)) = true ->
             errorCh (step os WatcherLock s2) = errorCh s2
             /\ isRunning (em (wld (step os WatcherLock s2))) = false
             /\ errChan (em (wld (step os WatcherLock s2)))
                = match errChan (em (wld s2)) with
                  | [] => [ErrExitedUnexpectedly cause]
                  | _ :: _ => errChan (em (wld s2))
                  end).
Proof.
  intros Hwa Hel. split.
  - unfold step. rewrite Hwa. unfold monitor_exit.
    apply Z.ltb_ge in Hel. now rewrite Hel.
  - intros s2 Hw2. split; [|split].
    + intros Hpc. unfold step. rewrite Hw2.
      destruct (pc s2) eqn:E; try reflexivity.
      exfalso. eapply Hpc. reflexivity.
    + intros Hidle. unfold step. rewrite Hw2.
      destruct (pc s2) eqn:E; rewrite ?E; try (repeat split; reflexivity).
      unfold crash_under_lock. rewrite Hidle.
      destruct s2; repeat split; cbn in *; congruence.
    + intros r Hr Hrun. unfold step. rewrite Hw2, Hr.
      unfold crash_under_lock. rewrite Hrun.
      cbn [set_watcher set_wld wld errorCh with_em em].
      cbn [set_isRunning errChan].
      destruct (errChan (em (wld s2))) as [|e q] eqn:Hch;
        cbn; rewrite ?Hch; repeat split; reflexivity.
Qed.

Lemma late_exit_signals_only_after_readiness_witness :
  let s := run linux (firstn 6 late_exit_schedule) (entry sc_late_exit test_world) in
  let s1 := step linux (Exit 5000000000 (Some "signal: killed")) s in
  s1 = set_watcher (WWantLock (Some "signal: killed")) s
  /\ step linux WatcherLock s1 = s1.
Proof.
  intros s s1.
  destruct (late_exit_signals_only_after_readiness linux s 5000000000
              (Some "signal: killed")) as [Hstep Hlock].
  - reflexivity.
  - unfold grace. lia.
  - split; [exact Hstep|].
    destruct (Hlock s1) as [Hheld _].
    + reflexivity.
    + apply Hheld. intros r. vm_compute. discriminate.
Defined.

(** C10, as stated, fails: the process exits five seconds after launch
    with the flag still false and readiness unresolved; the last scanned
    line then resolves readiness, [Start] returns, and the watcher, now
    with the mutex, signals the crash on the fault channel. *)
Lemma late_exit_then_crash_signal :
  let s0 := entry sc_late_exit test_world in
  let before := run linux (firstn 6 late_exit_schedule) s0 in
  let after := run linux late_exit_schedule s0 in
  nth_error late_exit_schedule 6 = Some (Exit 5000000000 (Some "signal: killed"))
  /\ (grace <= 5000000000)%Z
  /\ watcher before = WWaiting
  /\ isRunning (em (wld before)) = false
  /\ pc before = Parked2
  /\ errChan (em (wld before)) = []
  /\ errChan (em (wld after)) = [ErrExitedUnexpectedly (Some "signal: killed")]
  /\ pc after = Returned None.
Proof.
  cbv zeta. split; [reflexivity|]. split; [unfold grace; lia|].
  repeat split; vm_compute; reflexivity.
Qed.

(** * Further properties of the supervisor *)

(** ** Where a result comes from *)

Lemma step_ready_cause (os : host) (l : label) (s : sys) :
  (forall r, pc s <> Returned r) ->
  pc (step os l s) = Returned None ->
  exists line,
    l = Line Stderr line /\ Contains line "Server started" = true.
Proof.
  intros Hpc.
  remember (step os l s) as s' eqn:E.
  destruct s as [w ch q cd dp me mo wa p]. cbn [pc] in *.
  unfold step, monitor_line, monitor_end, monitor_exit, evaluate_select,
    choose, take_case, send_error_blocking, send_error_nonblocking,
    offer_error, send_ready, receive_error, on_error, on_ready, parked,
    error_ready, ctx_ready, timeout_ready, ctx_is_done,
    monitor, set_monitor, set_watcher, set_pc, set_wld, set_errorCh,
    set_ctx_done, set_deadline_passed in E.
  cbn [wld chans errorCh ctx_done deadline_passed mon_stderr mon_stdout
       watcher pc] in E.
  destruct l as [st | | st line | st failure | elapsed cause | | pick | | | c].
  all: try destruct st.
  all: try destruct failure.
  all: destruct p; try (exfalso; eapply Hpc; reflexivity).
  all: repeat (split_test E; cbn [wld chans errorCh ctx_done deadline_passed
                                  mon_stderr mon_stdout watcher pc app nth
                                  List.length andb] in E).
  all: subst s'; cbn [pc]; try discriminate.
  all: intros _; exists line; split; [reflexivity|].
  all: match goal with
       | H : (_ && _)%bool = true |- _ => apply andb_prop in H; apply H
       end.
Qed.

Lemma await_ready_cause (os : host) (sched : list label) :
  forall s s',
    (forall r, pc s <> Returned r) ->
    await os sched s = Some s' ->
    pc s' = Returned None ->
    exists line,
      In (Line Stderr line) sched /\ Contains line "Server started" = true.
Proof.
  induction sched as [|l rest IH]; intros s s' Hpc Haw Hret.
  - simpl in Haw. destruct (pc s) eqn:E; try discriminate.
    exfalso. eapply Hpc. reflexivity.
  - rewrite await_waiting in Haw by exact Hpc.
    destruct (pc (step os l s)) as [| | | | |r] eqn:E;
      try (destruct (IH (step os l s) s') as [line [Hin Hc]];
           [intros r0; rewrite E; discriminate|exact Haw|exact Hret|];
           exists line; split; [now right|exact Hc]).
    rewrite (await_returned os rest _ r E) in Haw. injection Haw as <-.
    rewrite E in Hret. injection Hret as ->.
    destruct (step_ready_cause os l s Hpc E) as [line [-> Hc]].
    exists line. split; [now left|exact Hc].
Qed.

(** [Start] succeeds only on the evidence of the emulator itself: the
    process was launched and its stderr monitor scanned, and echoed, a
    line containing "Server started". *)
Theorem Start_succeeds_only_on_readiness_line
  (os : host) (sc : scenario) (w w' : world) :
  Start os sc w = Some (w', None) ->
  (exists pid, launch sc = Started pid /\ process_handle (em w') = Some pid)
  /\ exists line,
      In (Line Stderr line) (sched sc)
      /\ Contains line "Server started" = true.
Proof.
  intros HS. split.
  - destruct (Start_cases os sc w w' None HS)
      as [[_ [_ Hr]] | [[_ [c [_ [_ Hr]]]] | [_ [_ [lines Hres]]]]];
      try discriminate.
    destruct Hres as [[_ [Hch ->]] | [e [He _]]]; [|discriminate].
    destruct (entry_chans sc w Hch) as [pid [Hl Hpid]].
    exists pid. split; [exact Hl|].
    unfold process_handle in *. rewrite em_publish. cbn [cmd set_isRunning].
    now rewrite em_echo.
  - revert HS. unfold Start, Start_launch, initializeDirectory.
    destruct (isRunning (em w)); [discriminate|].
    destruct (mkdir_failure sc); [discriminate|].
    fold (entry sc w).
    destruct (await os (sched sc) (entry sc w)) as [s|] eqn:Haw; [|discriminate].
    destruct (pc s) as [| | | | |r] eqn:Hp; try discriminate.
    intros [= _ ->].
    apply (await_ready_cause os (sched sc) (entry sc w) s);
      [intros r; rewrite entry_pc; discriminate|exact Haw|exact Hp].
Qed.

Lemma Start_succeeds_only_on_readiness_line_witness :
  (exists pid,
      launch sc_ready = Started pid
      /\ process_handle (em running_world) = Some pid)
  /\ exists line,
      In (Line Stderr line) (sched sc_ready)
      /\ Contains line "Server started" = true.
Proof.
  apply (Start_succeeds_only_on_readiness_line linux sc_ready test_world
           running_world).
  vm_compute. reflexivity.
Defined.

Section Provenance.

Variable os : host.
Variable port : Z.

Lemma accounted_mono (seen seen' : list label) (e : error) :
  incl seen seen' -> accounted port seen e -> accounted port seen' e.
Proof.
  intros Hincl [l [Hin Hacc]]. exists l. split; [now apply Hincl|exact Hacc].
Qed.

Lemma provenance_mono (seen seen' : list label) (s : sys) :
  incl seen seen' -> provenance port seen s -> provenance port seen' s.
Proof.
  intros Hincl [Hp [Hq [Hb [Hc [Hd Hr]]]]].
  repeat split; try assumption.
  - intros e He. eapply accounted_mono; eauto.
  - intros e He. eapply accounted_mono; eauto.
  - intros c Hc'. apply Hincl. auto.
  - intros Hd'. apply Hincl. auto.
  - intros e He. eapply accounted_mono; eauto.
Qed.

Lemma provenance_on_error (seen : list label) (e : error) (s : sys) :
  provenance port seen s ->
  accounted port seen e ->
  provenance port seen (on_error os e s).
Proof.
  intros [Hp [Hq [Hb [Hc [Hd Hr]]]]] He.
  unfold on_error, provenance. destruct s as [w ch q cd dp me mo wa p].
  cbn [set_pc set_wld wld chans errorCh ctx_done deadline_passed mon_stderr
       mon_stdout watcher pc] in *.
  repeat split; try assumption.
  - destruct (stopUnlocked_fields os w) as [_ [H _]]. now rewrite H.
  - intros e' [= <-]. exact He.
Qed.

Lemma provenance_on_ready (seen : list label) (s : sys) :
  provenance port seen s -> provenance port seen (on_ready s).
Proof.
  intros [Hp [Hq [Hb [Hc [Hd Hr]]]]].
  unfold on_ready, provenance. destruct s as [w ch q cd dp me mo wa p].
  cbn [set_pc set_wld wld chans errorCh ctx_done deadline_passed mon_stderr
       mon_stdout watcher pc] in *.
  repeat split; try assumption. discriminate.
Qed.

Lemma provenance_receive_error (seen : list label) (s : sys) :
  provenance port seen s -> provenance port seen (receive_error os s).
Proof.
  intros H. unfold receive_error.
  destruct (errorCh s) as [|e q] eqn:Eq; [exact H|].
  assert (He : accounted port seen e).
  { destruct H as [_ [Hq _]]. apply Hq. rewrite Eq. now left. }
  apply provenance_on_error; [|exact He].
  destruct H as [Hp [Hq [Hb [Hc [Hd Hr]]]]].
  destruct s as [w ch q0 cd dp me mo wa p].
  cbn [wld chans errorCh ctx_done deadline_passed mon_stderr mon_stdout
       watcher pc] in *. subst q0.
  destruct wa as [| | | e' | |];
    cbn [set_watcher set_errorCh wld chans errorCh ctx_done deadline_passed
         mon_stderr mon_stdout watcher pc];
    repeat split; try assumption; try discriminate;
    try (intros e0 He0; apply Hq; now right).
  intros e0 He0. apply in_app_or in He0. destruct He0 as [He0 | [<- | []]].
  - apply Hq. now right.
  - now apply Hb.
Qed.

Lemma provenance_offer_error (seen : list label) (e : error) (s s' : sys) :
  provenance port seen s ->
  accounted port seen e ->
  offer_error os e s = Some s' ->
  provenance port seen s'.
Proof.
  intros H He. unfold offer_error.
  destruct (parked s).
  - intros [= <-]. now apply provenance_on_error.
  - destruct (List.length (errorCh s) <? 2)%nat; [|discriminate].
    intros [= <-].
    destruct H as [Hp [Hq [Hb [Hc [Hd Hr]]]]].
    destruct s as [w ch q cd dp me mo wa p].
    cbn [set_errorCh wld chans errorCh ctx_done deadline_passed mon_stderr
         mon_stdout watcher pc] in *.
    repeat split; try assumption.
    intros e0 He0. apply in_app_or in He0. destruct He0 as [He0 | [<- | []]];
      auto.
Qed.

Lemma provenance_send_nonblocking (seen : list label) (e : error) (s : sys) :
  provenance port seen s ->
  accounted port seen e ->
  provenance port seen (send_error_nonblocking os e s).
Proof.
  intros H He. unfold send_error_nonblocking.
  destruct (offer_error os e s) as [s'|] eqn:E; [|exact H].
  eapply provenance_offer_error; eauto.
Qed.

Lemma provenance_set_monitor (seen : list label) (st : stream) (g : gstate)
  (s : sys) :
  provenance port seen s -> provenance port seen (set_monitor st g s).
Proof.
  intros H. destruct st; exact H.
Qed.

Lemma provenance_set_watcher (seen : list label) (g : wstate) (s : sys) :
  provenance port seen s ->
  (forall e, g = WBlockedSend e -> accounted port seen e) ->
  provenance port seen (set_watcher g s).
Proof.
  intros [Hp [Hq [Hb [Hc [Hd Hr]]]]] Hg.
  repeat split; assumption.
Qed.

Lemma provenance_echo (seen : list label) (line : string) (s : sys) :
  provenance port seen s ->
  provenance port seen (set_wld (emit (Println line) (wld s)) s).
Proof.
  intros H. exact H.
Qed.

Lemma provenance_send_blocking (seen : list label) (e : error) (s : sys) :
  provenance port seen s ->
  accounted port seen e ->
  provenance port seen (send_error_blocking os e s).
Proof.
  intros H He. unfold send_error_blocking.
  destruct (offer_error os e (set_watcher WFinished s)) as [s'|] eqn:E.
  - eapply provenance_offer_error; [|exact He|exact E].
    apply provenance_set_watcher; [exact H|discriminate].
  - apply provenance_set_watcher; [exact H|].
    now intros e' [= <-].
Qed.

Lemma provenance_take_case (seen : list label) (c : ready_case) (s : sys) :
  provenance port seen s ->
  In c (error_ready s ++ timeout_ready s ++ ctx_ready s) ->
  provenance port seen (take_case os c s).
Proof.
  intros H Hin.
  assert (Hctx : forall c0, ctx_done s = Some c0 -> In (Cancel c0) seen)
    by apply H.
  assert (Hdl : deadline_passed s = true -> In BudgetElapsed seen) by apply H.
  unfold error_ready, timeout_ready, ctx_ready in Hin.
  destruct c as [| |c]; cbn [take_case].
  - now apply provenance_receive_error.
  - apply provenance_on_error; [exact H|].
    destruct (ctx_done s) as [c0|] eqn:Ec.
    + exists (Cancel c0). split; [now apply Hctx|exact I].
    + destruct (deadline_passed s) eqn:Ed.
      * exists BudgetElapsed. split; [now apply Hdl|exact I].
      * destruct (errorCh s); cbn in Hin;
          repeat (destruct Hin as [Hin | Hin]; try discriminate);
          contradiction.
  - apply provenance_on_error; [exact H|].
    exists (Cancel c). split; [|reflexivity].
    apply Hctx.
    destruct (ctx_done s) as [c0|] eqn:Ec.
    + destruct (errorCh s); cbn in Hin;
        repeat (destruct Hin as [Hin | Hin]; try discriminate);
        try contradiction; congruence.
    + destruct (errorCh s); destruct (deadline_passed s); cbn in Hin;
        repeat (destruct Hin as [Hin | Hin]; try discriminate);
        contradiction.
Qed.

Lemma provenance_choose (seen : list label) (pick : nat)
  (ready : list ready_case) (park : coord) (s : sys) :
  provenance port seen s ->
  incl ready (error_ready s ++ timeout_ready s ++ ctx_ready s) ->
  (forall e, park <> Returned (Some e)) ->
  provenance port seen (choose os pick ready park s).
Proof.
  intros H Hincl Hpark. unfold choose.
  destruct ready as [|c ready'] eqn:E.
  - destruct H as [Hp [Hq [Hb [Hc [Hd Hr]]]]].
    repeat split; try assumption.
    intros e He. cbn in He. now contradiction (Hpark e).
  - apply provenance_take_case; [exact H|].
    apply Hincl. apply nth_In.
    apply Nat.mod_upper_bound. discriminate.
Qed.

Lemma provenance_step (seen : list label) (l : label) (s : sys) :
  provenance port seen s -> provenance port (l :: seen) (step os l s).
Proof.
  intros H0.
  assert (H : provenance port (l :: seen) s)
    by (eapply provenance_mono; [|exact H0]; intros x Hx; now right).
  assert (Hport : Port (em (wld s)) = port) by apply H.
  destruct l as [st | | st line | st failure | elapsed cause | | pick | | | c];
    cbn [step].
  - destruct (monitor st s); try exact H. now apply provenance_set_monitor.
  - destruct (watcher s); try exact H.
    apply provenance_set_watcher; [exact H|].
    destruct (ctx_is_done s); discriminate.
  - destruct (monitor st s); try exact H.
    unfold monitor_line. cbv zeta.
    set (s1 := set_wld (emit (Println line) (wld s)) s).
    assert (H1 : provenance port (Line st line :: seen) s1) by exact H.
    match goal with
    | |- context [if ?c then send_ready s1 else s1] =>
        set (s2 := if c then send_ready s1 else s1);
        assert (H2 : provenance port (Line st line :: seen) s2)
          by (unfold s2; destruct c; [|exact H1];
              unfold send_ready; destruct (parked s1); [|exact H1];
              now apply provenance_on_ready)
    end.
    destruct (bind_conflict line) eqn:Eb; [|exact H2].
    apply provenance_set_monitor, provenance_send_nonblocking; [exact H2|].
    exists (Line st line). split; [now left|].
    cbn. split; [|exact Eb]. apply H2.
  - destruct (monitor st s); try exact H.
    unfold monitor_end. destruct failure as [c|].
    + apply provenance_send_nonblocking;
        [now apply provenance_set_monitor|].
      exists (StreamEnd st (Some c)). split; [now left|reflexivity].
    + now apply provenance_set_monitor.
  - destruct (watcher s); try exact H.
    unfold monitor_exit. destruct (elapsed <? grace)%Z eqn:El.
    + apply provenance_send_blocking; [exact H|].
      exists (Exit elapsed cause). split; [now left|].
      cbn. split; [reflexivity|]. now apply Z.ltb_lt.
    + apply provenance_set_watcher; [exact H|discriminate].
  - destruct (watcher s) as [| | | |cause|]; try exact H.
    destruct (pc s) as [| | | | |r] eqn:Ep; try exact H.
    destruct H as [Hp [Hq [Hb [Hc [Hd Hr]]]]].
    destruct s as [w ch q cd dp me mo wa p]. unfold provenance.
    cbn [set_watcher set_wld wld chans errorCh ctx_done deadline_passed
         mon_stderr mon_stdout watcher pc] in *.
    repeat split; try assumption; try discriminate.
    destruct (crash_under_lock_fields cause w) as [Hf _]. now rewrite Hf.
  - unfold evaluate_select. destruct (pc s) eqn:Ep; try exact H.
    + apply provenance_choose; [exact H| |discriminate].
      intros x Hx. apply in_app_or in Hx. apply in_or_app.
      destruct Hx; [now left|right; apply in_or_app; now right].
    + destruct (errorCh s) eqn:Eq.
      * destruct H as [Hp [Hq [Hb [Hc [Hd Hr]]]]].
        repeat split; try assumption. discriminate.
      * now apply provenance_receive_error.
    + apply provenance_choose; [exact H|apply incl_refl|discriminate].
  - destruct (pc s) eqn:Ep; try exact H.
    destruct H as [Hp [Hq [Hb [Hc [Hd Hr]]]]].
    repeat split; try assumption. discriminate.
  - assert (Hset : provenance port (BudgetElapsed :: seen)
                     (set_deadline_passed true s)).
    { destruct H as [Hp [Hq [Hb [Hc [Hd Hr]]]]].
      repeat split; try assumption. intros _. now left. }
    destruct (pc s) eqn:Ep; try exact Hset; try exact H.
    apply provenance_on_error; [exact Hset|].
    exists BudgetElapsed. split; [now left|exact I].
  - destruct (ctx_done s) eqn:Ec; [exact H|].
    assert (Hset : provenance port (Cancel c :: seen)
                     (set_ctx_done (Some c) s)).
    { destruct H as [Hp [Hq [Hb [Hc [Hd Hr]]]]].
      repeat split; try assumption. intros c0 [= <-]. now left. }
    cbv zeta. destruct (parked (set_ctx_done (Some c) s)); [|exact Hset].
    apply provenance_on_error; [exact Hset|].
    exists (Cancel c). split; [now left|reflexivity].
Qed.

Lemma incl_shift (l : label) (rest seen : list label) :
  incl (rest ++ l :: seen) ((l :: rest) ++ seen).
Proof.
  intros x Hx. apply in_app_or in Hx. cbn.
  destruct Hx as [Hx | [<- | Hx]].
  - right. apply in_or_app. now left.
  - now left.
  - right. apply in_or_app. now right.
Qed.

Lemma provenance_await (sched : list label) :
  forall seen s s',
    provenance port seen s ->
    (forall r, pc s <> Returned r) ->
    await os sched s = Some s' ->
    provenance port (sched ++ seen) s'.
Proof.
  induction sched as [|l rest IH]; intros seen s s' H Hpc Haw.
  - simpl in Haw. destruct (pc s) eqn:E; try discriminate.
    exfalso. eapply Hpc. reflexivity.
  - rewrite await_waiting in Haw by exact Hpc.
    pose proof (provenance_step seen l s H) as H1.
    destruct (pc (step os l s)) as [| | | | |r] eqn:E.
    6: { rewrite (await_returned os rest _ r E) in Haw. injection Haw as <-.
         eapply provenance_mono; [|exact H1].
         intros x [<- | Hx]; [now left|]. cbn. right. apply in_or_app.
         now right. }
    all: apply (provenance_mono (rest ++ l :: seen)); [apply incl_shift|].
    all: apply (IH (l :: seen) (step os l s) s' H1);
      [intros r0; rewrite E; discriminate|exact Haw].
Qed.

End Provenance.

Lemma provenance_entry (sc : scenario) (w : world) :
  provenance (Port (em w)) [] (entry sc w).
Proof.
  unfold entry, startMonitoring, provenance.
  destruct (launch sc); cbn; repeat split; try discriminate; try tauto.
Qed.

Lemma Start_waiting_error
  (os : host) (sc : scenario) (w w' : world) (e : error) :
  Start os sc w = Some (w', Some e) ->
  isRunning (em w) = false ->
  mkdir_failure sc = None ->
  accounted (Port (em w)) (sched sc) e.
Proof.
  unfold Start, Start_launch, initializeDirectory.
  intros HS Hidle Hmk. rewrite Hidle, Hmk in HS. fold (entry sc w) in HS.
  destruct (await os (sched sc) (entry sc w)) as [s|] eqn:Haw; [|discriminate].
  destruct (pc s) as [| | | | |r] eqn:Hp; try discriminate.
  injection HS as _ ->.
  pose proof (provenance_await os (Port (em w)) (sched sc) [] (entry sc w) s
                (provenance_entry sc w)
                ltac:(intros r; rewrite entry_pc; discriminate) Haw) as H.
  rewrite app_nil_r in H.
  destruct H as [_ [_ [_ [_ [_ Hr]]]]]. now apply Hr.
Qed.

(** Every error [Start] returns is accounted for: the instance was
    already running; or the data directory could not be made; or the
    schedule holds the moment behind it: a bind-conflict line on either
    stream for the port error (which names the instance's own port), a
    read error of a stream, an exit seen within three seconds, the passed
    deadline or a cancellation for the timeout, the cancellation for the
    context error.  The crash error is never returned by [Start]. *)
Theorem Start_errors_are_accounted_for
  (os : host) (sc : scenario) (w w' : world) (e : error) :
  Start os sc w = Some (w', Some e) ->
  (e = ErrAlreadyRunning /\ isRunning (em w) = true)
  \/ (exists c, e = ErrDataDir c /\ mkdir_failure sc = Some c)
  \/ (exists l, In l (sched sc) /\ accounts_for (Port (em w)) l e
                /\ forall c, e <> ErrExitedUnexpectedly c).
Proof.
  intros HS.
  destruct (Start_cases os sc w w' (Some e) HS)
    as [[Hrun [_ [= ->]]] | [[_ [c [Hc [_ [= ->]]]]] | [Hrun [Hmk _]]]].
  - left. auto.
  - right. left. now exists c.
  - right. right.
    destruct (Start_waiting_error os sc w w' e HS Hrun Hmk) as [l [Hin Hacc]].
    exists l. split; [exact Hin|]. split; [exact Hacc|].
    intros c ->. destruct l as [| | | ? [?|] | | | | | |]; exact Hacc.
Qed.

Lemma Start_errors_are_accounted_for_witness :
  exists l,
    In l (sched sc_conflict_exit)
    /\ accounts_for 8085 l (ErrPortInUse 8085).
Proof.
  destruct (Start_errors_are_accounted_for linux sc_conflict_exit test_world
              (echo ["java.io.IOException: Failed to bind: Address already in use"]
                 (wld (entry sc_conflict_exit test_world)))
              (ErrPortInUse 8085))
    as [[H _] | [[c [H _]] | [l [Hin [Hacc _]]]]].
  - vm_compute. reflexivity.
  - discriminate H.
  - discriminate H.
  - exists l. split; [exact Hin|exact Hacc].
Defined.

(** The timeout error does not by itself mean that thirty seconds went
    by: [Start] returns it only once the deadline has passed or the
    caller's context has ended. *)
Theorem timeout_needs_deadline_or_cancellation
  (os : host) (sc : scenario) (w w' : world) :
  Start os sc w = Some (w', Some ErrStartTimeout) ->
  In BudgetElapsed (sched sc) \/ exists c, In (Cancel c) (sched sc).
Proof.
  intros HS.
  destruct (Start_cases os sc w w' _ HS)
    as [[_ [_ Hr]] | [[_ [c [_ [_ Hr]]]] | [Hrun [Hmk _]]]];
    try discriminate.
  destruct (Start_waiting_error os sc w w' _ HS Hrun Hmk) as [l [Hin Hacc]].
  destruct l as [| | | ? [?|] | | | | | |c]; try contradiction.
  - now left.
  - right. now exists c.
Qed.

Lemma timeout_needs_deadline_or_cancellation_witness :
  In BudgetElapsed (sched sc_no_executable)
  \/ exists c, In (Cancel c) (sched sc_no_executable).
Proof.
  apply (timeout_needs_deadline_or_cancellation linux sc_no_executable
           test_world (wld (entry sc_no_executable test_world))).
  vm_compute. reflexivity.
Defined.

(** The one configuration error [Start] can return is the failure to
    create the data directory; it is returned before anything is
    prepared or launched, with the cause appended to its message. *)
Theorem configuration_error_is_directory_failure
  (os : host) (sc : scenario) (w w' : world) (e : error) :
  Start os sc w = Some (w', Some e) ->
  kind_of e = ConfigurationError ->
  exists c,
    mkdir_failure sc = Some c
    /\ e = ErrDataDir c
    /\ Error_string e = "failed to create data directory: " ++ c
    /\ w' = emit (MkdirAll (DataDir (em w)) false) w
    /\ launch_attempts w' = launch_attempts w
    /\ em w' = em w.
Proof.
  intros HS Hk.
  destruct (Start_cases os sc w w' (Some e) HS)
    as [[_ [_ [= ->]]] | [[_ [c [Hc [-> [= ->]]]]] | [Hrun [Hmk _]]]].
  - discriminate.
  - exists c. repeat split; try assumption.
    rewrite launch_attempts_emit. lia.
  - destruct (Start_waiting_error os sc w w' e HS Hrun Hmk) as [l [_ Hacc]].
    destruct e; try discriminate.
    destruct l as [| | | ? [?|] | | | | | |]; contradiction.
Qed.

Lemma configuration_error_is_directory_failure_witness :
  exists c,
    mkdir_failure (mkScenario (Some "mkdir /tmp: permission denied")
                     (Started 1) [])
    = Some c
    /\ ErrDataDir "mkdir /tmp: permission denied" = ErrDataDir c.
Proof.
  destruct (configuration_error_is_directory_failure linux
              (mkScenario (Some "mkdir /tmp: permission denied") (Started 1) [])
              test_world
              (emit (MkdirAll (DataDir (em test_world)) false) test_world)
              (ErrDataDir "mkdir /tmp: permission denied"))
    as [c [Hc [He _]]].
  - reflexivity.
  - reflexivity.
  - exists c. split; [exact Hc|exact He].
Defined.

(** ** Port conflicts *)

(** A line with a bind-conflict marker (and no readiness marker), on
    either stream, ends that monitor: no later line of the stream is
    read.  When startup is unresolved, nothing is queued before it, and
    the coordinator's next select comes before any cancellation or
    deadline, [Start] returns the port error, naming the instance's port. *)
Theorem port_conflict_reported
  (os : host) (s : sys) (st : stream) (line : string)
  (pre post : list label) (pick : nat) :
  monitor st s = Active ->
  bind_conflict line = true ->
  Contains line "Server started" = false ->
  monitor st (step os (Line st line) s) = Finished
  /\ (forall line',
         step os (Line st line') (step os (Line st line) s)
         = step os (Line st line) s)
  /\ ((forall r, pc s <> Returned r) ->
      errorCh s = [] ->
      ctx_done s = None ->
      deadline_passed s = false ->
      Forall (fun l => calm l = true) pre ->
      exists s',
        await os (Line st line :: pre ++ Select pick :: post) s = Some s'
        /\ pc s' = Returned (Some (ErrPortInUse (Port (em (wld s)))))).
Proof.
  intros Hmon Hb Hc.
  assert (Hstep : step os (Line st line) s
                  = set_monitor st Finished
                      (send_error_nonblocking os
                         (ErrPortInUse (Port (em (wld s))))
                         (set_wld (emit (Println line) (wld s)) s))).
  { unfold step. rewrite Hmon. unfold monitor_line. cbv zeta.
    rewrite Hc, Hb, Bool.andb_false_r. reflexivity. }
  assert (Hfin : monitor st (step os (Line st line) s) = Finished).
  { rewrite Hstep. destruct st; reflexivity. }
  split; [exact Hfin|]. split.
  - intros line'. unfold step at 1. now rewrite Hfin.
  - intros Hpc Hq Hctx Hdl Hcalm.
    rewrite await_waiting by exact Hpc. rewrite Hstep.
    destruct s as [w ch q cd dp me mo wa p].
    cbn [pc errorCh ctx_done deadline_passed wld] in *. subst q cd dp.
    unfold send_error_nonblocking, offer_error, parked, on_error, set_pc,
      set_wld, set_errorCh.
    cbn [pc errorCh wld chans ctx_done deadline_passed mon_stderr mon_stdout
         watcher List.length Nat.ltb Nat.leb app emit em].
    destruct p as [| | | | |r]; try (exfalso; eapply Hpc; reflexivity).
    all: try (match goal with
              | |- context [await _ _ ?st0] =>
                  destruct (await_pending os (ErrPortInUse (Port (em w))) pick
                              post pre st0 Hcalm) as [s' [Haw Hres]];
                  [solve [unfold error_pending; destruct st; cbn; eauto 10]
                  |exists s'; auto]
              end).
    all: eexists; split;
      [eapply await_returned; destruct st; reflexivity
      |destruct st; reflexivity].
Qed.

Lemma port_conflict_reported_witness :
  exists s',
    await linux
      (Line Stdout "Exception in thread main: java.net.BindException"
         :: [] ++ Select 0 :: [])
      (step linux (GoMonitor Stdout) (entry sc_ready test_world)) = Some s'
    /\ pc s' = Returned (Some (ErrPortInUse 8085)).
Proof.
  destruct (port_conflict_reported linux
              (step linux (GoMonitor Stdout) (entry sc_ready test_world))
              Stdout "Exception in thread main: java.net.BindException"
              [] [] 0) as [_ [_ H]].
  - reflexivity.
  - reflexivity.
  - reflexivity.
  - apply H; try reflexivity.
    + intros r. vm_compute. discriminate.
    + constructor.
Defined.

(** ** Cancellation *)

Lemma muted_step (os : host) (c : ctx_err) (w : world) (l : label) (s : sys) :
  not_select l = true -> muted c w s -> muted c w (step os l s).
Proof.
  intros Hl [Hpc [Hctx [Hq [Hme [Hmo [Hwa Hw]]]]]].
  destruct s as [w0 ch q cd dp me mo wa p].
  cbn [pc ctx_done errorCh mon_stderr mon_stdout watcher wld] in *.
  subst p cd q w0. unfold muted.
  destruct l as [st | | st line | st failure | elapsed cause | | pick | | | c0];
    try discriminate Hl.
  all: try destruct st.
  all: destruct me; try discriminate Hme.
  all: destruct mo; try discriminate Hmo.
  all: destruct wa; try discriminate Hwa.
  all: cbn; repeat split; reflexivity.
Qed.

Lemma muted_await (os : host) (c : ctx_err) (w : world) (pick : nat)
  (post : list label) :
  isRunning (em w) = false ->
  forall pre s,
    Forall (fun l => not_select l = true) pre ->
    muted c w s ->
    exists s',
      await os (pre ++ Select pick :: post) s = Some s'
      /\ pc s' = Returned (Some (ErrContext c)) /\ wld s' = w.
Proof.
  intros Hidle.
  induction pre as [|l pre IH]; intros s Hpre Hm.
  - destruct Hm as [Hpc [Hctx [Hq [_ [_ [_ Hw]]]]]].
    cbn [app].
    rewrite await_waiting by (intros r; rewrite Hpc; discriminate).
    destruct s as [w0 ch q cd dp me mo wa p].
    cbn [pc ctx_done errorCh wld] in *. subst p cd q w0.
    eexists. split; [eapply await_returned; reflexivity|].
    cbn. rewrite Nat.mod_1_r. cbn.
    split; [reflexivity|]. now apply stopUnlocked_idle.
  - cbn [app].
    rewrite await_waiting
      by (intros r; destruct Hm as [Hpc _]; rewrite Hpc; discriminate).
    inversion Hpre as [|? ? Hl Hrest]; subst.
    apply IH; [exact Hrest|]. now apply muted_step.
Qed.

(** With a context that has already ended, [Start] still creates the
    directory and launches the process; no goroutine monitors it, and at
    its first select [Start] returns the context's error, leaving the
    process alive with its handle in the instance. *)
Theorem cancelled_context_still_launches
  (os : host) (sc : scenario) (w : world) (c : ctx_err) (pid : Z)
  (pre post : list label) (pick : nat) :
  isRunning (em w) = false ->
  mkdir_failure sc = None ->
  launch sc = Started pid ->
  sched sc = Cancel c :: pre ++ Select pick :: post ->
  Forall (fun l => not_select l = true) pre ->
  Start os sc w = Some (wld (entry sc w), Some (ErrContext c))
  /\ process_handle (em (wld (entry sc w))) = Some pid
  /\ launch_attempts (wld (entry sc w)) = S (launch_attempts w)
  /\ filter shutdown_effect (out (wld (entry sc w)))
     = filter shutdown_effect (out w).
Proof.
  intros Hidle Hmk Hl Hs Hpre.
  assert (He : entry sc w
               = mkSys (wld (entry sc w)) true [] None false
                       Spawned Spawned WSpawned Entering1)
    by (unfold entry, startMonitoring; rewrite Hl; reflexivity).
  split; [|split; [|split]].
  - unfold Start, Start_launch, initializeDirectory.
    rewrite Hidle, Hmk, Hs. fold (entry sc w).
    rewrite await_waiting by (intros r; rewrite entry_pc; discriminate).
    destruct (muted_await os c (wld (entry sc w)) pick post
                (entry_idle sc w Hidle) pre
                (step os (Cancel c) (entry sc w)) Hpre)
      as [s' [Haw [Hp Hw]]].
    + rewrite He. cbn. repeat split; reflexivity.
    + rewrite Haw, Hp, Hw. reflexivity.
  - unfold entry, startMonitoring. rewrite Hl. reflexivity.
  - rewrite launch_attempts_entry, Hl. lia.
  - unfold entry, startMonitoring. rewrite Hl.
    cbn [wld out emit with_em prepareCommand].
    rewrite <- app_assoc, filter_app. cbn. now rewrite app_nil_r.
Qed.

Lemma cancelled_context_still_launches_witness :
  let sc :=
    mkScenario None (Started 77)
      (Cancel Canceled :: [GoMonitor Stderr; GoWatcher; Exit 5 None]
         ++ Select 0 :: []) in
  Start linux sc test_world
  = Some (wld (entry sc test_world), Some (ErrContext Canceled))
  /\ process_handle (em (wld (entry sc test_world))) = Some 77%Z.
Proof.
  intros sc.
  destruct (cancelled_context_still_launches linux sc test_world Canceled 77
              [GoMonitor Stderr; GoWatcher; Exit 5 None] [] 0)
    as [HS [Hh _]]; try reflexivity.
  - repeat constructor.
  - split; [exact HS|exact Hh].
Defined.

(** A cancellation that lands between the two selects finds both
    [timeoutCtx.Done()] and [ctx.Done()] ready in the second one: which
    error [Start] returns, the timeout or the context's, is Go's pick. *)
Theorem cancellation_may_surface_as_timeout
  (os : host) (s : sys) (c : ctx_err) :
  pc s = Entering2 ->
  ctx_done s = Some c ->
  errorCh s = [] ->
  pc (step os (Select 0) s) = Returned (Some ErrStartTimeout)
  /\ pc (step os (Select 1) s) = Returned (Some (ErrContext c)).
Proof.
  intros Hpc Hctx Hq.
  destruct s as [w ch q cd dp me mo wa p].
  cbn [pc ctx_done errorCh] in *. subst p cd q.
  split; reflexivity.
Qed.

Lemma cancellation_may_surface_as_timeout_witness :
  let s :=
    run linux [Select 0; GraceElapsed; Select 0; Cancel Canceled]
      (entry sc_ready test_world) in
  deadline_passed s = false
  /\ pc (step linux (Select 0) s) = Returned (Some ErrStartTimeout)
  /\ pc (step linux (Select 1) s) = Returned (Some (ErrContext Canceled)).
Proof.
  intros s. split; [reflexivity|].
  apply (cancellation_may_surface_as_timeout linux s Canceled); reflexivity.
Defined.

(** ** After readiness *)

Lemma settled_step (os : host) (e : PubSubEmulator) (v : option string)
  (l : label) (s : sys) :
  settled e v s -> settled e v (step os l s).
Proof.
  intros [Hpc [Hwa [He Hv]]].
  remember (step os l s) as s' eqn:E.
  destruct s as [w ch q cd dp me mo wa p].
  cbn [pc watcher wld] in *. subst p.
  unfold step, monitor_line, monitor_end, monitor_exit, evaluate_select,
    send_error_blocking, send_error_nonblocking,
    offer_error, send_ready, on_error, on_ready, parked, ctx_is_done,
    monitor, set_monitor, set_watcher, set_pc, set_wld, set_errorCh,
    set_ctx_done, set_deadline_passed in E.
  cbn [wld chans errorCh ctx_done deadline_passed mon_stderr mon_stdout
       watcher pc] in E.
  unfold settled.
  destruct l as [st | | st line | st failure | elapsed cause | | pick | | | c].
  all: try destruct st.
  all: try destruct failure.
  all: destruct wa; try discriminate Hwa.
  all: repeat (split_test E; cbn [wld chans errorCh ctx_done deadline_passed
                                  mon_stderr mon_stdout watcher pc app andb]
                             in E).
  all: subst s'; cbn [pc watcher wld emit em environ spent_watcher].
  all: repeat split; assumption || reflexivity.
Qed.

Lemma settled_run (os : host) (e : PubSubEmulator) (v : option string)
  (sched : list label) :
  forall s, settled e v s -> settled e v (run os sched s).
Proof.
  induction sched as [|l rest IH]; intros s H; [exact H|].
  cbn [run]. apply IH. now apply settled_step.
Qed.

(** A process that dies within three seconds of the watcher's start, but
    after [Start] has returned nil, goes unreported: the early-exit error
    is sent to the startup channel, which nobody reads any more, and
    whatever the goroutines do afterwards the flag stays true, the fault
    channel stays as it was and the registry keeps the address. *)
Theorem early_exit_after_readiness_goes_unreported
  (os : host) (s : sys) (elapsed : Z) (cause : option string)
  (sched : list label) :
  pc s = Returned None ->
  watcher s = WWaiting ->
  (elapsed < grace)%Z ->
  let s' := run os sched (step os (Exit elapsed cause) s) in
  em (wld s') = em (wld s)
  /\ environ (wld s') = environ (wld s)
  /\ pc s' = Returned None
  /\ (errorCh s = [] ->
      errorCh (step os (Exit elapsed cause) s) = [ErrExitedImmediately cause]).
Proof.
  intros Hpc Hwa Hel s'.
  assert (Hstep : settled (em (wld s)) (environ (wld s))
                    (step os (Exit elapsed cause) s)
                  /\ (errorCh s = [] ->
                      errorCh (step os (Exit elapsed cause) s)
                      = [ErrExitedImmediately cause])).
  { apply Z.ltb_lt in Hel.
    destruct s as [w ch q cd dp me mo wa p].
    cbn [pc watcher wld errorCh] in *. subst p wa.
    unfold step, monitor_exit, send_error_blocking, offer_error, parked,
      set_watcher, set_errorCh.
    cbn [watcher pc errorCh wld chans ctx_done deadline_passed mon_stderr
         mon_stdout].
    rewrite Hel. unfold settled.
    split.
    - destruct (List.length q <? 2)%nat; repeat split; reflexivity.
    - intros ->. reflexivity. }
  destruct Hstep as [Hset Hq].
  destruct (settled_run os _ _ sched _ Hset) as [Hp [_ [He Hv]]].
  repeat split; assumption.
Qed.

Lemma early_exit_after_readiness_goes_unreported_witness :
  let s := run linux [Select 0; GoMonitor Stderr; GoWatcher;
                      Line Stderr "INFO: Server started, listening on 8085"]
             (entry sc_ready test_world) in
  let s' := run linux [WatcherLock; Line Stderr "shutting down"; WatcherLock]
              (step linux (Exit 2000000000 (Some "exit status 1")) s) in
  isRunning (em (wld s)) = true
  /\ em (wld s') = em (wld s)
  /\ environ (wld s') = environ (wld s).
Proof.
  intros s s'. split; [reflexivity|].
  destruct (early_exit_after_readiness_goes_unreported linux s 2000000000
              (Some "exit status 1")
              [WatcherLock; Line Stderr "shutting down"; WatcherLock])
    as [He [Hv _]]; try reflexivity.
  split; [exact He|exact Hv].
Defined.

(** ** Crashes and the registry *)

Lemma reachable_registry (os : host) (projectID : string) (port : Z) (w : world) :
  reachable os projectID port w ->
  isRunning (em w) = true ->
  environ w = Some ("localhost:" ++ fmt_d port).
Proof.
  induction 1 as [env0 | sc w w' r Hreach IH HS | w Hreach IH
                 | cause w Hreach IH].
  - discriminate.
  - destruct (reachable_inv os projectID port w Hreach) as [Hport _].
    destruct (Start_cases os sc w w' r HS)
      as [[Hrun [-> _]] | [[Hrun [c [_ [-> _]]]] | [Hrun [_ [lines Hres]]]]].
    + exact IH.
    + rewrite em_emit. congruence.
    + destruct (entry_fields sc w) as [_ [_ [_ [Hhost _]]]].
      destruct Hres as [[_ [_ ->]] | [e [_ ->]]].
      * intros _. now rewrite environ_publish, em_echo, Hhost, Hport.
      * rewrite em_echo, (entry_idle sc w Hrun). discriminate.
  - unfold Stop. rewrite stopUnlocked_stopped. discriminate.
  - destruct (crash_under_lock_fields cause w) as [_ [_ [_ Hr]]].
    rewrite Hr. discriminate.
Qed.

(** An exit noticed after startup is reported, not cleaned up: the
    watcher clears the flag and offers the crash to the fault channel
    (dropping it when the one slot is taken), performs no effect, and
    leaves PUBSUB_EMULATOR_HOST naming the dead emulator.  [Stop] then
    finds the flag false and does nothing, so the entry stays. *)
Theorem crash_is_reported_but_never_cleaned_up
  (os : host) (projectID : string) (port : Z) (cause : option string)
  (w : world) (n : nat) :
  reachable os projectID port w ->
  isRunning (em w) = true ->
  let w1 := crash_under_lock cause w in
  isRunning (em w1) = false
  /\ errChan (em w1)
     = match errChan (em w) with
       | [] => [ErrExitedUnexpectedly cause]
       | _ :: _ => errChan (em w)
       end
  /\ out w1 = out w
  /\ Nat.iter n (Stop os) w1 = w1
  /\ environ (Nat.iter n (Stop os) w1) = Some ("localhost:" ++ fmt_d port).
Proof.
  intros Hreach Hrun w1.
  assert (Hoff : isRunning (em w1) = false)
    by apply (crash_under_lock_fields cause w).
  assert (Hstop : Nat.iter n (Stop os) w1 = w1).
  { induction n as [|n IH]; [reflexivity|].
    change (Nat.iter (S n) (Stop os) w1)
      with (Stop os (Nat.iter n (Stop os) w1)).
    rewrite IH. now apply stopUnlocked_idle. }
  split; [exact Hoff|]. split; [|split; [|split; [exact Hstop|]]].
  - unfold w1, crash_under_lock. rewrite Hrun. cbn [with_em em].
    cbn [set_isRunning errChan].
    destruct (errChan (em w)) as [|e q] eqn:E; cbn; now rewrite ?E.
  - unfold w1, crash_under_lock. now rewrite Hrun.
  - rewrite Hstop. unfold w1, crash_under_lock. rewrite Hrun.
    cbn [with_em environ].
    now apply (reachable_registry os projectID port w).
Qed.

Lemma crash_is_reported_but_never_cleaned_up_witness :
  let w1 := crash_under_lock (Some "signal: killed") running_world in
  isRunning (em w1) = false
  /\ errChan (em w1) = [ErrExitedUnexpectedly (Some "signal: killed")]
  /\ environ (Nat.iter 2 (Stop linux) w1) = Some ("localhost:" ++ fmt_d 8085).
Proof.
  intros w1.
  destruct (crash_is_reported_but_never_cleaned_up linux "test-project" 8085
              (Some "signal: killed") running_world 2)
    as [Hoff [Hch [_ [_ Henv]]]].
  - apply (reach_Start linux "test-project" 8085 sc_ready test_world
             running_world None).
    + apply reach_new.
    + vm_compute. reflexivity.
  - reflexivity.
  - split; [exact Hoff|]. split; [exact Hch|exact Henv].
Defined.

(** [Host] is set by the first [Start] that gets past the data
    directory and is never cleared or changed afterwards: not by [Stop],
    not by a crash, not by a later [Start], whatever its outcome. *)
Theorem Host_is_never_cleared
  (os : host) (projectID : string) (port : Z) (w w' : world) :
  reachable os projectID port w ->
  Host (em w) <> "" ->
  w' = Stop os w
  \/ (exists cause, w' = crash_under_lock cause w)
  \/ (exists sc r, Start os sc w = Some (w', r)) ->
  Host (em w') = Host (em w)
  /\ Host (em w') = "localhost:" ++ fmt_d port.
Proof.
  intros Hreach Hset Hop.
  assert (Hinv : forall v, reachable os projectID port v ->
                           Host (em v) = ""
                           \/ Host (em v) = "localhost:" ++ fmt_d port).
  { clear. induction 1 as [env0 | sc v v' r Hreach IH HS | v Hreach IH
                          | cause v Hreach IH].
    - now left.
    - destruct (reachable_inv os projectID port v Hreach) as [Hport _].
      destruct (Start_cases os sc v v' r HS)
        as [[_ [-> _]] | [[_ [c [_ [-> _]]]] | [_ [_ [lines Hres]]]]];
        [exact IH|exact IH|].
      right. destruct (entry_fields sc v) as [_ [_ [_ [Hhost _]]]].
      unfold Host.
      destruct Hres as [[_ [_ ->]] | [e [_ ->]]];
        rewrite ?em_publish; cbn [hostPort set_isRunning];
        now rewrite em_echo, Hhost, Hport.
    - unfold Stop, Host in *.
      destruct (stopUnlocked_fields os v) as [_ [_ [_ [Hh _]]]].
      now rewrite Hh.
    - unfold Host in *.
      destruct (crash_under_lock_fields cause v) as [_ [Hh _]].
      now rewrite Hh. }
  assert (Hw : Host (em w) = "localhost:" ++ fmt_d port)
    by (destruct (Hinv w Hreach); [contradiction|assumption]).
  assert (Hreach' : reachable os projectID port w').
  { destruct Hop as [-> | [[cause ->] | [sc [r HS]]]].
    - now apply reach_Stop.
    - now apply reach_crash.
    - eapply reach_Start; eauto. }
  assert (Hsame : Host (em w') = Host (em w)).
  { destruct Hop as [-> | [[cause ->] | [sc [r HS]]]].
    - unfold Stop, Host.
      now destruct (stopUnlocked_fields os w) as [_ [_ [_ [Hh _]]]].
    - unfold Host. now destruct (crash_under_lock_fields cause w) as [_ [Hh _]].
    - destruct (reachable_inv os projectID port w Hreach) as [Hport _].
      destruct (Start_cases os sc w w' r HS)
        as [[_ [-> _]] | [[_ [c [_ [-> _]]]] | [_ [_ [lines Hres]]]]];
        [reflexivity|reflexivity|].
      rewrite Hw. destruct (entry_fields sc w) as [_ [_ [_ [Hhost _]]]].
      unfold Host.
      destruct Hres as [[_ [_ ->]] | [e [_ ->]]];
        rewrite ?em_publish; cbn [hostPort set_isRunning];
        now rewrite em_echo, Hhost, Hport. }
  split; [exact Hsame|]. now rewrite Hsame.
Qed.

Lemma Host_is_never_cleared_witness :
  Host (em (Stop linux running_world)) = Host (em running_world)
  /\ Host (em (Stop linux running_world)) = "localhost:" ++ fmt_d 8085.
Proof.
  apply (Host_is_never_cleared linux "test-project" 8085 running_world
           (Stop linux running_world)).
  - apply (reach_Start linux "test-project" 8085 sc_ready test_world
             running_world None).
    + apply reach_new.
    + vm_compute. reflexivity.
  - vm_compute. discriminate.
  - left. reflexivity.
Defined.

(** ** Start returns *)


(** * Vehicle checks (vehicle_check.go, data.go) *)

Module Vehicle.

(** ** Data *)

Record LeaseCompany : Type := mkLeaseCompany {
  CompanyName : string;
  AddressLine1 : string;
  AddressLine2 : string;
  AddressLine3 : string;
  AddressLine4 : string;
  Postcode : string
}.

(** [VehicleContravention]; the field [LeaseCompany] is [Lease] here. *)
Record VehicleContravention : Type := mkContravention {
  Reference : string;
  VRM : string;
  ContraventionDate : string;
  IsHirerVehicle : bool;
  Lease : LeaseCompany
}.

(** [SearchRequest], one entry of a batch file. *)
Record SearchRequest : Type := mkRequest {
  request_VRM : string;
  request_Company : string
}.

(** The four implementations of the interface [DataSource]. *)
Inductive DataSource : Type :=
| acmelease
| leasecompany
| fleetcompany
| hirecompany.

Definition ID (d : DataSource) : string :=
  match d with
  | acmelease => "acmelease"
  | leasecompany => "leasecompany"
  | fleetcompany => "fleetcompany"
  | hirecompany => "hirecompany"
  end.

Definition SearchURL (d : DataSource) : string :=
  match d with
  | acmelease => "https://sandbox-update.transfer360.dev/test_search/acmelease"
  | leasecompany => "https://sandbox-update.transfer360.dev/test_search/leasecompany"
  | fleetcompany => "https://sandbox-update.transfer360.dev/test_search/fleetcompany"
  | hirecompany => "https://sandbox-update.transfer360.dev/test_search/hirecompany"
  end.

(** The Go map [dataSources]: keys are unique, and a range over it visits
    the entries in an order of Go's choosing (see [permute]). *)
Definition sources : Type := list (string * DataSource).

(** [m[k] = v]. *)
Fixpoint assign (k : string) (v : DataSource) (m : sources) : sources :=
  match m with
  | [] => [(k, v)]
  | (k', v') :: rest =>
      if String.eqb k k' then (k, v) :: rest else (k', v') :: assign k v rest
  end.

(** [m[k]], nil when the key is absent. *)
Fixpoint getDataSource (m : sources) (id : string) : option DataSource :=
  match m with
  | [] => None
  | (k, v) :: rest => if String.eqb id k then Some v else getDataSource rest id
  end.

(** [initDataSources]. *)
Definition initDataSources (m : sources) : sources :=
  assign "Hire Company Ltd" hirecompany
    (assign "Fleet Company Ltd" fleetcompany
       (assign "Lease Company Ltd" leasecompany
          (assign "ACME Company Ltd" acmelease m))).

(** ** Iteration order *)

Fixpoint insert_at {A : Type} (n : nat) (x : A) (l : list A) : list A :=
  match n, l with
  | O, _ => x :: l
  | S n', [] => [x]
  | S n', y :: t => y :: insert_at n' x t
  end.

(** The order in which one range statement visits a map, picked by a
    number Go draws: every order is the image of some number. *)
Fixpoint permute {A : Type} (seed : nat) (l : list A) : list A :=
  match l with
  | [] => []
  | x :: t =>
      insert_at (seed mod S (List.length t)) x
        (permute (seed / S (List.length t)) t)
  end.

(** ** The world of a check *)

(** What the decoder makes of a response body. *)
Inductive decode_outcome : Type :=
| DecodeFails (timeout : bool) (msg : string)
| Decoded (c : VehicleContravention).

(** What [client.Do] returns, and with a response what its body holds. *)
Inductive http_outcome : Type :=
| DoFails (timeout : bool) (msg : string)
| Response (code : Z) (body : decode_outcome).

(** The errors of this part: those of the HTTP client and the decoder
    pass through as they are, the others are built with [fmt.Errorf]. *)
Inductive error : Type :=
| ETransport (timeout : bool) (msg : string)
| EStatus (code : Z)
| EDecode (timeout : bool) (msg : string)
| EPublish (msg : string)
| EReadFile (msg : string)
| EUnmarshal (msg : string).

Definition Error_string (e : error) : string :=
  match e with
  | ETransport _ m | EDecode _ m | EReadFile m | EUnmarshal m => m
  | EStatus code => "unexpected status code: " ++ fmt_d code
  | EPublish m => "failed to publish message: " ++ m
  end.

(** [os.IsTimeout]. *)
Definition IsTimeout (e : error) : bool :=
  match e with
  | ETransport t _ | EDecode t _ => t
  | _ => false
  end.

(** What [os.ReadFile] and [json.Unmarshal] make of a batch file. *)
Inductive batch_file : Type :=
| ReadFails (msg : string)
| UnmarshalFails (msg : string)
| Requests (requests : list SearchRequest).

(** What a check does to its surroundings, in order. *)
Inductive event : Type :=
| Log (line : string)
| Post (url vrm : string)
| Publish (topic : string) (c : VehicleContravention) (failure : option string).

(** The answers of the surroundings, by the number of the interaction:
    the HTTP exchange, the number that orders a range over the map, the
    UUID, and the error (if any) of [result.Get]; and the batch files. *)
Record env : Type := mkEnv {
  search : nat -> DataSource -> string -> http_outcome;
  seed : nat -> nat;
  uuid : nat -> string;
  publish_failure : nat -> option string;
  file : string -> batch_file
}.

Record state : Type := mkState {
  dataSources : sources;
  clock : nat;
  trace : list event
}.

(** A call returns a value, returns an error, or panics. *)
Inductive result (A : Type) : Type :=
| Ok (a : A)
| Err (e : error)
| Panicked.

Arguments Ok {A} a.
Arguments Err {A} e.
Arguments Panicked {A}.

Definition M (A : Type) : Type := state -> result A * state.

Definition ret {A : Type} (a : A) : M A := fun st => (Ok a, st).

Definition fail {A : Type} (e : error) : M A := fun st => (Err e, st).

Definition panic {A : Type} : M A := fun st => (Panicked, st).

Definition bind {A B : Type} (m : M A) (k : A -> M B) : M B :=
  fun st =>
    match m st with
    | (Ok a, st') => k a st'
    | (Err e, st') => (Err e, st')
    | (Panicked, st') => (Panicked, st')
    end.

Notation "x <- m ;; k" := (bind m (fun x => k))
  (at level 61, m at next level, right associativity).
Notation "m ;;; k" := (bind m (fun _ => k))
  (at level 61, right associativity).

Definition lift {A : Type} (r : result A) : M A := fun st => (r, st).

Definition emit (e : event) : M unit :=
  fun st => (Ok tt, mkState (dataSources st) (clock st) (trace st ++ [e])).

(** The number of the next interaction. *)
Definition tick : M nat :=
  fun st => (Ok (clock st), mkState (dataSources st) (S (clock st)) (trace st)).

Definition get_sources : M sources := fun st => (Ok (dataSources st), st).

(** The part of [SearchContravention] after [client.Do]: the error of
    the transport, the status test, the decoder. *)
Definition read_response (o : http_outcome) : result VehicleContravention :=
  match o with
  | DoFails t msg => Err (ETransport t msg)
  | Response code body =>
      if (code =? 200)%Z then
        match body with
        | DecodeFails t msg => Err (EDecode t msg)
        | Decoded c => Ok c
        end
      else Err (EStatus code)
  end.

(** The messages handed to Pub/Sub. *)
Definition is_publish (e : event) : bool :=
  match e with
  | Publish _ _ _ => true
  | _ => false
  end.

Definition published (st : state) : list event := filter is_publish (trace st).

(** The HTTP requests made. *)
Definition is_post (e : event) : bool :=
  match e with
  | Post _ _ => true
  | _ => false
  end.

Definition posted (st : state) : list event := filter is_post (trace st).

(** An answer that neither yields a hirer vehicle nor stops a search
    over all sources: a timeout, or a vehicle that is not a hirer's. *)
Definition no_hit (o : http_outcome) : bool :=
  match read_response o with
  | Ok c => negb (IsHirerVehicle c)
  | Err e => IsTimeout e
  | Panicked => false
  end.

(** The hirer vehicle an answer yields, if any. *)
Definition hit (o : http_outcome) : option VehicleContravention :=
  match read_response o with
  | Ok c => if IsHirerVehicle c then Some c else None
  | _ => None
  end.

(** The first hirer vehicle among the answers of the sources, in
    visiting order. *)
Fixpoint first_hit (answers : DataSource -> http_outcome) (order : sources)
  : option VehicleContravention :=
  match order with
  | [] => None
  | (_, d) :: rest =>
      match hit (answers d) with
      | Some c => Some c
      | None => first_hit answers rest
      end
  end.

Section Checks.

Variable world : env.

(** [SearchContravention]. *)
Definition SearchContravention (source : DataSource) (vrm : string)
  : M VehicleContravention :=
  emit (Log ("Searching for " ++ vrm ++ " in " ++ ID source)) ;;;
  k <- tick ;;
  emit (Post (SearchURL source) vrm) ;;;
  lift (read_response (search world k source vrm)).

(** The loop of [findContravention] over the entries in visiting order. *)
Fixpoint search_each (order : sources) (vrm : string)
  : M (option VehicleContravention) :=
  match order with
  | [] => ret None
  | (_, datasource) :: rest =>
      fun st =>
        match SearchContravention datasource vrm st with
        | (Ok c, st') =>
            if IsHirerVehicle c then (Ok (Some c), st')
            else search_each rest vrm st'
        | (Err e, st') =>
            if IsTimeout e then
              (emit (Log ("Timeout searching for " ++ vrm ++ " in "
                            ++ ID datasource)) ;;;
               search_each rest vrm) st'
            else (Err e, st')
        | (Panicked, st') => (Panicked, st')
        end
  end.

(** [findContravention]. *)
Definition findContravention (vrm : string) : M (option VehicleContravention) :=
  m <- get_sources ;;
  k <- tick ;;
  search_each (permute (seed world k) m) vrm.

Definition set_Reference (r : string) (c : VehicleContravention)
  : VehicleContravention :=
  mkContravention r (VRM c) (ContraventionDate c) (IsHirerVehicle c) (Lease c).

(** [sendToPubSub]; the message data is the JSON of the contravention,
    which [json.Marshal] cannot refuse for this struct. *)
Definition sendToPubSub (contravention : VehicleContravention) : M unit :=
  emit (Log ("Sending to pubsub: " ++ VRM contravention)) ;;;
  k <- tick ;;
  let contravention := set_Reference (uuid world k) contravention in
  j <- tick ;;
  emit (Publish "positive_searches" contravention (publish_failure world j)) ;;;
  match publish_failure world j with
  | Some m => fail (EPublish m)
  | None => emit (Log ("published vrm " ++ VRM contravention))
  end.

(** The tail of [checkVehicle], from the test
    [contravention == nil || !contravention.IsHirerVehicle] on.  The log
    line of that branch reads [contravention.VRM], which on a nil pointer
    is a run-time panic. *)
Definition report (contravention : option VehicleContravention) : M unit :=
  match contravention with
  | None => panic
  | Some c =>
      if negb (IsHirerVehicle c)
      then emit (Log ("Not a hirer vehicle: " ++ VRM c))
      else sendToPubSub c
  end.

(** [checkVehicle]. *)
Definition checkVehicle (vrm company : string) : M unit :=
  emit (Log ("Checking vehicle: " ++ vrm ++ ", " ++ company)) ;;;
  m <- get_sources ;;
  match getDataSource m company with
  | None =>
      contravention <- findContravention vrm ;;
      report contravention
  | Some datasource =>
      fun st =>
        match SearchContravention datasource vrm st with
        | (Ok c, st') => report (Some c) st'
        | (Err e, st') =>
            if IsTimeout e then
              emit (Log ("Timeout searching for " ++ vrm ++ " in " ++ company))
                st'
            else (Err e, st')
        | (Panicked, st') => (Panicked, st')
        end
  end.

(** The loop of [processBatchFile]. *)
Fixpoint check_each (requests : list SearchRequest) : M unit :=
  match requests with
  | [] => ret tt
  | request :: rest =>
      checkVehicle (request_VRM request) (request_Company request) ;;;
      check_each rest
  end.

(** [processBatchFile]. *)
Definition processBatchFile (filePath : string) : M unit :=
  emit (Log ("Processing batch file: " ++ filePath)) ;;;
  match file world filePath with
  | ReadFails m => fail (EReadFile m)
  | UnmarshalFails m => fail (EUnmarshal m)
  | Requests requests => check_each requests
  end.

End Checks.

(** ** Concrete answers *)

Definition a_hirer_vehicle : VehicleContravention :=
  mkContravention "ref" "AB12CDE" "2024-05-01T10:00:00Z" true
    (mkLeaseCompany "ACME Company Ltd" "1 High Street" "Leeds" "West Yorkshire"
       "UK" "LS1 1AA").

Definition not_a_hirer_vehicle : VehicleContravention :=
  mkContravention "ref" "AB12CDE" "2024-05-01T10:00:00Z" false
    (mkLeaseCompany "none" "none" "none" "none" "none" "none").

(** ACME knows the vehicle as a hirer's; the lease company times out;
    the others answer that it is no hirer vehicle. *)
Definition acme_answers : env :=
  {| search := fun _ d _ =>
                 match d with
                 | acmelease => Response 200 (Decoded a_hirer_vehicle)
                 | leasecompany => DoFails true "context deadline exceeded"
                 | _ => Response 200 (Decoded not_a_hirer_vehicle)
                 end;
     seed := fun k => k;
     uuid := fun _ => "6ba7b810-9dad-11d1-80b4-00c04fd430c8";
     publish_failure := fun _ => None;
     file := fun _ => Requests [mkRequest "AB12CDE" "ACME Company Ltd";
                                mkRequest "ZZ99ZZZ" "Hire Company Ltd"] |}.

(** Nobody knows the vehicle as a hirer's. *)
Definition nobody_answers : env :=
  {| search := fun _ d _ =>
                 match d with
                 | leasecompany => DoFails true "context deadline exceeded"
                 | _ => Response 200 (Decoded not_a_hirer_vehicle)
                 end;
     seed := fun k => k;
     uuid := fun _ => "6ba7b810-9dad-11d1-80b4-00c04fd430c8";
     publish_failure := fun _ => None;
     file := fun _ => Requests [mkRequest "AB12CDE" "Somebody Else Ltd";
                                mkRequest "AB12CDE" "ACME Company Ltd"] |}.

(** The state in which [run] starts its checks. *)
Definition ready_state : state := mkState (initDataSources []) 0 [].

(** ** The table of data sources *)

Lemma get_assign (k : string) (v : DataSource) (m : sources) (id : string) :
  getDataSource (assign k v m) id
  = if String.eqb id k then Some v else getDataSource m id.
Proof.
  induction m as [|[k' v'] rest IH]; cbn.
  - reflexivity.
  - destruct (String.eqb k k') eqn:E; cbn.
    + apply String.eqb_eq in E. subst k'.
      now destruct (String.eqb id k).
    + rewrite IH. destruct (String.eqb id k') eqn:E'; [|reflexivity].
      apply String.eqb_eq in E'. subst k'.
      destruct (String.eqb id k) eqn:E''; [|reflexivity].
      apply String.eqb_eq in E''. subst k.
      now rewrite String.eqb_refl in E.
Qed.

(** After [initDataSources] a lookup finds the four sources under their
    company names, whatever the map held before, and every other key as
    it was; a second [initDataSources] changes no lookup; and no source
    is found under its own [ID]. *)
Theorem initDataSources_lookup (m : sources) (id : string) :
  getDataSource (initDataSources m) id
  = (if String.eqb id "Hire Company Ltd" then Some hirecompany
     else if String.eqb id "Fleet Company Ltd" then Some fleetcompany
     else if String.eqb id "Lease Company Ltd" then Some leasecompany
     else if String.eqb id "ACME Company Ltd" then Some acmelease
     else getDataSource m id)
  /\ getDataSource (initDataSources (initDataSources m)) id
     = getDataSource (initDataSources m) id
  /\ (forall d, getDataSource (initDataSources []) (ID d) = None).
Proof.
  assert (H : forall m',
             getDataSource (initDataSources m') id
             = (if String.eqb id "Hire Company Ltd" then Some hirecompany
                else if String.eqb id "Fleet Company Ltd" then Some fleetcompany
                else if String.eqb id "Lease Company Ltd" then Some leasecompany
                else if String.eqb id "ACME Company Ltd" then Some acmelease
                else getDataSource m' id))
    by (intros m'; unfold initDataSources; now rewrite !get_assign).
  split; [apply H|]. split.
  - rewrite (H (initDataSources m)), (H m).
    destruct (String.eqb id "Hire Company Ltd"); [reflexivity|].
    destruct (String.eqb id "Fleet Company Ltd"); [reflexivity|].
    destruct (String.eqb id "Lease Company Ltd"); [reflexivity|].
    now destruct (String.eqb id "ACME Company Ltd").
  - intros []; reflexivity.
Qed.

(** ** Iteration order *)

Lemma In_insert_at {A : Type} (x y : A) (n : nat) (l : list A) :
  In y (insert_at n x l) <-> y = x \/ In y l.
Proof.
  revert n. induction l as [|z t IH]; intros [|n]; cbn;
    try (intuition congruence).
  rewrite IH. intuition congruence.
Qed.

Lemma In_permute {A : Type} (y : A) (l : list A) :
  forall k, In y (permute k l) <-> In y l.
Proof.
  induction l as [|x t IH]; intros k; cbn [permute]; [tauto|].
  rewrite In_insert_at, IH. cbn. intuition congruence.
Qed.

(** ** One search *)

Section Check_facts.

Variable world : env.

Lemma SearchContravention_run (d : DataSource) (vrm : string) (st : state) :
  SearchContravention world d vrm st
  = (read_response (search world (clock st) d vrm),
     mkState (dataSources st) (S (clock st))
       ((trace st ++ [Log ("Searching for " ++ vrm ++ " in " ++ ID d)])
          ++ [Post (SearchURL d) vrm])).
Proof. reflexivity. Qed.

(** What one call leaves behind: the table untouched, the clock not set
    back, the trace extended by [evs]. *)
Definition extends (st st' : state) (evs : list event) : Prop :=
  dataSources st' = dataSources st
  /\ (clock st <= clock st')%nat
  /\ trace st' = (trace st ++ evs)%list.

Lemma extends_refl (st : state) : extends st st [].
Proof.
  unfold extends. rewrite app_nil_r. auto.
Qed.

Lemma extends_trans (st1 st2 st3 : state) (e1 e2 : list event) :
  extends st1 st2 e1 -> extends st2 st3 e2 -> extends st1 st3 (e1 ++ e2).
Proof.
  intros [Hd1 [Hc1 Ht1]] [Hd2 [Hc2 Ht2]]. unfold extends.
  rewrite Hd2, Hd1, Ht2, Ht1, app_assoc. repeat split; try reflexivity. lia.
Qed.

Lemma extends_emit (e : event) (st : state) :
  extends st (snd (emit e st)) [e].
Proof. unfold extends. cbn. auto. Qed.

Lemma search_each_spec (vrm : string) (order : sources) :
  forall st r st',
    search_each world order vrm st = (r, st') ->
    (exists evs,
        extends st st' evs
        /\ filter is_publish evs = []
        /\ (List.length (filter is_post evs) <= List.length order)%nat)
    /\ match r with
       | Ok (Some c) =>
           IsHirerVehicle c = true
           /\ exists name d k,
               In (name, d) order
               /\ search world k d vrm = Response 200 (Decoded c)
       | Ok None => True
       | Err e => IsTimeout e = false
       | Panicked => False
       end.
Proof.
  induction order as [|[name d] rest IH]; intros st r st' H.
  - cbn in H. injection H as <- <-. split; [|exact I].
    exists []. split; [apply extends_refl|]. cbn. auto.
  - cbn [search_each] in H. rewrite SearchContravention_run in H.
    set (st1 := mkState _ _ _) in H.
    assert (E1 : extends st st1
                   [Log ("Searching for " ++ vrm ++ " in " ++ ID d);
                    Post (SearchURL d) vrm]).
    { unfold extends, st1. cbn. rewrite <- app_assoc. auto. }
    destruct (read_response (search world (clock st) d vrm))
      as [c|e|] eqn:Er.
    + destruct (IsHirerVehicle c) eqn:Eh.
      * injection H as <- <-. split.
        -- eexists. split; [exact E1|]. cbn. split; [reflexivity|lia].
        -- split; [exact Eh|]. exists name, d, (clock st).
           split; [now left|].
           unfold read_response in Er.
           destruct (search world (clock st) d vrm) as [|code body];
             [discriminate|].
           destruct (code =? 200)%Z eqn:Ec; [|discriminate].
           apply Z.eqb_eq in Ec. subst code.
           destruct body; [discriminate|]. congruence.
      * destruct (IH st1 r st' H) as [[evs [Hx [Hp Hn]]] Hr]. split.
        -- exists ([Log ("Searching for " ++ vrm ++ " in " ++ ID d);
                    Post (SearchURL d) vrm] ++ evs)%list.
           split; [eapply extends_trans; eauto|].
           cbn [app filter is_publish is_post List.length].
           split; [exact Hp|lia].
        -- destruct r as [[c'|]|e'|]; try exact Hr.
           destruct Hr as [Hh [n' [d' [k' [Hin Hs]]]]].
           split; [exact Hh|]. exists n', d', k'. split; [now right|exact Hs].
    + destruct (IsTimeout e) eqn:Et.
      * unfold bind in H. cbn [emit] in H.
        set (st2 := mkState _ _ _) in H.
        assert (E2 : extends st1 st2
                       [Log ("Timeout searching for " ++ vrm ++ " in " ++ ID d)])
          by (unfold extends, st2; cbn; auto).
        destruct (IH st2 r st' H) as [[evs [Hx [Hp Hn]]] Hr]. split.
        -- exists ([Log ("Searching for " ++ vrm ++ " in " ++ ID d);
                    Post (SearchURL d) vrm]
                   ++ [Log ("Timeout searching for " ++ vrm ++ " in " ++ ID d)]
                   ++ evs)%list.
           split;
             [eapply extends_trans; [exact E1|eapply extends_trans; eauto]|].
           cbn [app filter is_publish is_post List.length].
           split; [exact Hp|lia].
        -- destruct r as [[c'|]|e'|]; try exact Hr.
           destruct Hr as [Hh [n' [d' [k' [Hin Hs]]]]].
           split; [exact Hh|]. exists n', d', k'. split; [now right|exact Hs].
      * injection H as <- <-. split; [|exact Et].
        eexists. split; [exact E1|]. cbn. split; [reflexivity|lia].
    + unfold read_response in Er.
      destruct (search world (clock st) d vrm) as [|code [|]];
        try discriminate;
        destruct (code =? 200)%Z; discriminate.
Qed.

Lemma length_insert_at {A : Type} (x : A) (n : nat) (l : list A) :
  List.length (insert_at n x l) = S (List.length l).
Proof.
  revert n. induction l as [|y t IH]; intros [|n]; cbn; auto.
Qed.

Lemma length_permute {A : Type} (l : list A) :
  forall k, List.length (permute k l) = List.length l.
Proof.
  induction l as [|x t IH]; intros k; cbn [permute]; [reflexivity|].
  rewrite length_insert_at, IH. reflexivity.
Qed.

Lemma findContravention_run (vrm : string) (st : state) :
  findContravention world vrm st
  = search_each world (permute (seed world (clock st)) (dataSources st)) vrm
      (mkState (dataSources st) (S (clock st)) (trace st)).
Proof. reflexivity. Qed.

Lemma published_extends (st st' : state) (evs : list event) :
  extends st st' evs ->
  published st' = (published st ++ filter is_publish evs)%list.
Proof.
  intros [_ [_ Ht]]. unfold published. now rewrite Ht, filter_app.
Qed.

Lemma posted_extends (st st' : state) (evs : list event) :
  extends st st' evs ->
  posted st' = (posted st ++ filter is_post evs)%list.
Proof.
  intros [_ [_ Ht]]. unfold posted. now rewrite Ht, filter_app.
Qed.

(** [findContravention] only reads: it publishes nothing, leaves the
    table as it is, and asks each source at most once.  The vehicle it
    returns is a hirer's, decoded from a 200 answer of a registered
    source; the error it returns is never a timeout (those are logged and
    skipped); it does not panic. *)
Theorem findContravention_sound
  (vrm : string) (st st' : state) (r : result (option VehicleContravention)) :
  findContravention world vrm st = (r, st') ->
  dataSources st' = dataSources st
  /\ published st' = published st
  /\ (List.length (posted st')
      <= List.length (posted st) + List.length (dataSources st))%nat
  /\ match r with
     | Ok (Some c) =>
         IsHirerVehicle c = true
         /\ exists name d k,
             In (name, d) (dataSources st)
             /\ search world k d vrm = Response 200 (Decoded c)
     | Ok None => True
     | Err e => IsTimeout e = false
     | Panicked => False
     end.
Proof.
  rewrite findContravention_run. intros H.
  destruct (search_each_spec vrm _ _ _ _ H) as [[evs [Hx [Hp Hn]]] Hr].
  assert (Hx' : extends st st' evs).
  { destruct Hx as [Hd [Hc Ht]]. unfold extends. cbn in *.
    repeat split; try assumption. lia. }
  split; [apply Hx'|]. split; [|split].
  - rewrite (published_extends _ _ _ Hx'), Hp. apply app_nil_r.
  - rewrite (posted_extends _ _ _ Hx'), length_app.
    rewrite length_permute in Hn. lia.
  - destruct r as [[c|]|e|]; try exact Hr.
    destruct Hr as [Hh [name [d [k [Hin Hs]]]]].
    split; [exact Hh|]. exists name, d, k. split; [|exact Hs].
    now apply In_permute in Hin.
Qed.

Lemma search_each_no_hit (vrm : string) (order : sources) :
  (forall k name d, In (name, d) order -> no_hit (search world k d vrm) = true) ->
  forall st, fst (search_each world order vrm st) = Ok None.
Proof.
  induction order as [|[name d] rest IH]; intros Hno st; [reflexivity|].
  cbn [search_each]. rewrite SearchContravention_run.
  pose proof (Hno (clock st) name d (or_introl eq_refl)) as H.
  unfold no_hit in H.
  destruct (read_response (search world (clock st) d vrm)) as [c|e|];
    [| |discriminate].
  - apply negb_true_iff in H. rewrite H.
    apply IH. intros k n' d' Hin. apply (Hno k n' d'). now right.
  - rewrite H. unfold bind. cbn [emit].
    apply IH. intros k n' d' Hin. apply (Hno k n' d'). now right.
Qed.

Lemma sendToPubSub_run (c : VehicleContravention) (st : state) :
  let c' := set_Reference (uuid world (clock st)) c in
  let sent :=
    Publish "positive_searches" c' (publish_failure world (S (clock st))) in
  sendToPubSub world c st
  = match publish_failure world (S (clock st)) with
    | Some m =>
        (Err (EPublish m),
         mkState (dataSources st) (S (S (clock st)))
           ((trace st ++ [Log ("Sending to pubsub: " ++ VRM c)]) ++ [sent]))
    | None =>
        (Ok tt,
         mkState (dataSources st) (S (S (clock st)))
           (((trace st ++ [Log ("Sending to pubsub: " ++ VRM c)]) ++ [sent])
              ++ [Log ("published vrm " ++ VRM c)]))
    end.
Proof.
  cbv zeta. unfold sendToPubSub, bind, emit, tick. cbn.
  now destruct (publish_failure world (S (clock st))).
Qed.

Lemma checkVehicle_run (vrm company : string) (st : state) :
  let st0 :=
    mkState (dataSources st) (clock st)
      (trace st ++ [Log ("Checking vehicle: " ++ vrm ++ ", " ++ company)]) in
  checkVehicle world vrm company st
  = match getDataSource (dataSources st) company with
    | None =>
        match findContravention world vrm st0 with
        | (Ok c, st1) => report world c st1
        | (Err e, st1) => (Err e, st1)
        | (Panicked, st1) => (Panicked, st1)
        end
    | Some d =>
        match SearchContravention world d vrm st0 with
        | (Ok c, st1) => report world (Some c) st1
        | (Err e, st1) =>
            if IsTimeout e then
              emit (Log ("Timeout searching for " ++ vrm ++ " in " ++ company))
                st1
            else (Err e, st1)
        | (Panicked, st1) => (Panicked, st1)
        end
    end.
Proof.
  cbv zeta. unfold checkVehicle, bind at 1 2. cbn [emit get_sources dataSources].
  destruct (getDataSource (dataSources st) company); reflexivity.
Qed.


Lemma published_log (d : sources) (k : nat) (t : list event) (line : string) :
  published (mkState d k (t ++ [Log line])) = published (mkState d k t).
Proof.
  unfold published. cbn [trace]. rewrite filter_app. cbn. apply app_nil_r.
Qed.


Lemma published_clock (d : sources) (k k' : nat) (t : list event) :
  published (mkState d k t) = published (mkState d k' t).
Proof. reflexivity. Qed.

Lemma published_state (st : state) :
  published (mkState (dataSources st) (clock st) (trace st)) = published st.
Proof. reflexivity. Qed.

(** What [report] does with a vehicle that was found. *)
Lemma report_found (c : VehicleContravention) (st : state) :
  report world (Some c) st
  = if IsHirerVehicle c then sendToPubSub world c st
    else emit (Log ("Not a hirer vehicle: " ++ VRM c)) st.
Proof.
  unfold report. now destruct (IsHirerVehicle c).
Qed.


Lemma unknown_company_panic_aux
  (vrm company : string) (st : state) :
  getDataSource (dataSources st) company = None ->
  (forall k name d,
      In (name, d) (dataSources st) ->
      no_hit (search world k d vrm) = true) ->
  fst (checkVehicle world vrm company st) = Panicked
  /\ published (snd (checkVehicle world vrm company st)) = published st.
Proof.
  intros Hg Hno. rewrite checkVehicle_run. cbv zeta. rewrite Hg.
  set (st0 := mkState (dataSources st) (clock st) _).
  destruct (findContravention world vrm st0) as [r1 st1] eqn:Ef.
  destruct (findContravention_sound vrm st0 st1 r1 Ef) as [_ [Hp1 _]].
  assert (Hr : r1 = Ok None).
  { change r1 with (fst (r1, st1)). rewrite <- Ef, findContravention_run.
    apply search_each_no_hit. intros k name d Hin.
    apply In_permute in Hin. now apply (Hno k name d). }
  subst r1. cbn. split; [reflexivity|].
  rewrite Hp1. unfold st0. rewrite published_log. apply published_state.
Qed.

(** [checkVehicle] panics only for a company that names no data source,
    and then whenever no source reports a hirer vehicle (each times out
    or answers that the vehicle is not a hirer's): the log line of the
    "not a hirer vehicle" branch reads the VRM through the nil pointer
    that [findContravention] returned.  Nothing is published. *)
Theorem unknown_company_without_hit_panics
  (vrm company : string) (st : state) :
  (fst (checkVehicle world vrm company st) = Panicked ->
   getDataSource (dataSources st) company = None)
  /\ (getDataSource (dataSources st) company = None ->
      (forall k name d,
          In (name, d) (dataSources st) ->
          no_hit (search world k d vrm) = true) ->
      fst (checkVehicle world vrm company st) = Panicked
      /\ published (snd (checkVehicle world vrm company st)) = published st).
Proof.
  split.
  - rewrite checkVehicle_run. cbv zeta.
    destruct (getDataSource (dataSources st) company) as [d|]; [|reflexivity].
    rewrite SearchContravention_run.
    destruct (read_response _) as [c|e|] eqn:Er.
    + rewrite report_found, sendToPubSub_run. cbv zeta.
      destruct (IsHirerVehicle c); [|discriminate].
      now destruct (publish_failure world _).
    + now destruct (IsTimeout e).
    + unfold read_response in Er.
      destruct (search world _ d vrm) as [|code [|]];
        try discriminate; destruct (code =? 200)%Z; discriminate.
  - intros Hg Hno.
    destruct (checkVehicle world vrm company st) as [r st'] eqn:Ec.
    destruct (unknown_company_panic_aux vrm company st)
      as [Hf Hq]; [exact Hg|exact Hno|].
    rewrite Ec in Hf, Hq. auto.
Qed.

(** For a company that names a data source only that source is asked,
    once.  A timeout of it is swallowed: [checkVehicle] logs it, returns
    nil and publishes nothing, and no other source is tried.  Any other
    failure of the search is returned as it is. *)
Theorem named_source_failure
  (vrm company : string) (d : DataSource) (e : error) (st : state) :
  getDataSource (dataSources st) company = Some d ->
  read_response (search world (clock st) d vrm) = Err e ->
  let r := fst (checkVehicle world vrm company st) in
  let st' := snd (checkVehicle world vrm company st) in
  r = (if IsTimeout e then Ok tt else Err e)
  /\ published st' = published st
  /\ posted st' = (posted st ++ [Post (SearchURL d) vrm])%list.
Proof.
  intros Hg He. cbv zeta.
  rewrite checkVehicle_run. cbv zeta. rewrite Hg, SearchContravention_run.
  cbn [clock]. rewrite He.
  destruct (IsTimeout e); cbn [emit fst snd];
    unfold published, posted; cbn [trace];
    rewrite !filter_app; cbn; rewrite ?app_nil_r; auto.
Qed.

(** ** Batches *)



End Check_facts.

(** ** Iteration order and the result *)

Lemma search_each_first_hit
  (world : env) (vrm : string) (answers : DataSource -> http_outcome)
  (order : sources) :
  (forall k d, search world k d vrm = answers d) ->
  (forall name d,
      In (name, d) order ->
      hit (answers d) <> None \/ no_hit (answers d) = true) ->
  forall st, fst (search_each world order vrm st) = Ok (first_hit answers order).
Proof.
  intros Hans. induction order as [|[name d] rest IH]; intros Hok st;
    [reflexivity|].
  cbn [search_each first_hit]. rewrite SearchContravention_run, Hans.
  assert (IH' : forall st', fst (search_each world rest vrm st')
                            = Ok (first_hit answers rest))
    by (apply IH; intros n' d' Hin; apply (Hok n' d'); now right).
  destruct (Hok name d (or_introl eq_refl)) as [Hhit | Hno].
  - unfold hit in *.
    destruct (read_response (answers d)) as [c|e|]; try now contradiction Hhit.
    destruct (IsHirerVehicle c); [reflexivity|now contradiction Hhit].
  - unfold hit, no_hit in *.
    destruct (read_response (answers d)) as [c|e|]; [| |discriminate].
    + apply negb_true_iff in Hno. rewrite Hno. apply IH'.
    + rewrite Hno. unfold bind. cbn [emit]. apply IH'.
Qed.

Lemma first_hit_Some (answers : DataSource -> http_outcome) (order : sources)
  (c : VehicleContravention) :
  first_hit answers order = Some c ->
  exists name d, In (name, d) order /\ hit (answers d) = Some c.
Proof.
  induction order as [|[name d] rest IH]; cbn; [discriminate|].
  destruct (hit (answers d)) as [c'|] eqn:E.
  - intros [= <-]. exists name, d. auto.
  - intros H. destruct (IH H) as [n' [d' [Hin Hh]]]. exists n', d'. auto.
Qed.

Lemma first_hit_None (answers : DataSource -> http_outcome) (order : sources) :
  first_hit answers order = None ->
  forall name d, In (name, d) order -> hit (answers d) = None.
Proof.
  induction order as [|[n0 d0] rest IH]; cbn; [contradiction|].
  destruct (hit (answers d0)) as [c'|] eqn:E; [discriminate|].
  intros H name d [[= <- <-] | Hin]; [exact E|]. now apply (IH H name).
Qed.

(** When the sources' answers do not change during the call, none of
    them is an error other than a timeout, and all that report a hirer
    vehicle report the same one, the result of [findContravention] does
    not depend on the order in which Go ranges over the map. *)
Theorem findContravention_order_independent
  (world1 world2 : env) (vrm : string) (answers : DataSource -> http_outcome)
  (st1 st2 : state) :
  dataSources st1 = dataSources st2 ->
  (forall k d, search world1 k d vrm = answers d) ->
  (forall k d, search world2 k d vrm = answers d) ->
  (forall name d,
      In (name, d) (dataSources st1) ->
      hit (answers d) <> None \/ no_hit (answers d) = true) ->
  (forall n1 d1 n2 d2 c1 c2,
      In (n1, d1) (dataSources st1) ->
      In (n2, d2) (dataSources st1) ->
      hit (answers d1) = Some c1 ->
      hit (answers d2) = Some c2 ->
      c1 = c2) ->
  fst (findContravention world1 vrm st1) = fst (findContravention world2 vrm st2).
Proof.
  intros Hd H1 H2 Hok Huniq.
  rewrite !findContravention_run, <- Hd.
  set (o1 := permute (seed world1 (clock st1)) (dataSources st1)).
  set (o2 := permute (seed world2 (clock st2)) (dataSources st1)).
  rewrite (search_each_first_hit world1 vrm answers o1 H1),
    (search_each_first_hit world2 vrm answers o2 H2).
  - f_equal.
    destruct (first_hit answers o1) as [c1|] eqn:E1.
    + destruct (first_hit_Some _ _ _ E1) as [n1 [d1 [Hin1 Hh1]]].
      apply In_permute in Hin1.
      destruct (first_hit answers o2) as [c2|] eqn:E2.
      * destruct (first_hit_Some _ _ _ E2) as [n2 [d2 [Hin2 Hh2]]].
        apply In_permute in Hin2.
        f_equal. now apply (Huniq n1 d1 n2 d2).
      * pose proof (first_hit_None _ _ E2 n1 d1) as Hn.
        rewrite Hh1 in Hn. discriminate Hn. now apply In_permute.
    + destruct (first_hit answers o2) as [c2|] eqn:E2; [|reflexivity].
      destruct (first_hit_Some _ _ _ E2) as [n2 [d2 [Hin2 Hh2]]].
      apply In_permute in Hin2.
      pose proof (first_hit_None _ _ E1 n2 d2) as Hn.
      rewrite Hh2 in Hn. discriminate Hn. now apply In_permute.
  - intros name d Hin. apply In_permute in Hin. now apply (Hok name).
  - intros name d Hin. apply In_permute in Hin. now apply (Hok name).
Qed.

(** ** Witnesses *)

Lemma findContravention_sound_witness :
  published (snd (findContravention acme_answers "AB12CDE" ready_state))
  = published ready_state
  /\ fst (findContravention acme_answers "AB12CDE" ready_state)
     = Ok (Some a_hirer_vehicle).
Proof.
  destruct (findContravention_sound acme_answers "AB12CDE" ready_state
              (snd (findContravention acme_answers "AB12CDE" ready_state))
              (fst (findContravention acme_answers "AB12CDE" ready_state)))
    as [_ [Hp _]].
  - now destruct (findContravention acme_answers "AB12CDE" ready_state).
  - split; [exact Hp|]. vm_compute. reflexivity.
Defined.


Lemma unknown_company_without_hit_panics_witness :
  fst (checkVehicle nobody_answers "AB12CDE" "Somebody Else Ltd" ready_state)
  = Panicked
  /\ published (snd (checkVehicle nobody_answers "AB12CDE" "Somebody Else Ltd"
                       ready_state))
     = published ready_state.
Proof.
  destruct (unknown_company_without_hit_panics nobody_answers "AB12CDE"
              "Somebody Else Ltd" ready_state) as [_ H].
  apply H.
  - reflexivity.
  - intros k name d Hin.
    destruct d; reflexivity.
Defined.

Lemma named_source_failure_witness :
  fst (checkVehicle acme_answers "AB12CDE" "Lease Company Ltd" ready_state)
  = Ok tt
  /\ published (snd (checkVehicle acme_answers "AB12CDE" "Lease Company Ltd"
                       ready_state))
     = published ready_state
  /\ posted (snd (checkVehicle acme_answers "AB12CDE" "Lease Company Ltd"
                    ready_state))
     = (posted ready_state ++ [Post (SearchURL leasecompany) "AB12CDE"])%list.
Proof.
  apply (named_source_failure acme_answers "AB12CDE" "Lease Company Ltd"
           leasecompany (ETransport true "context deadline exceeded")
           ready_state); reflexivity.
Defined.


(** The same answers, ranged over in another order. *)
Definition acme_answers_reordered : env :=
  {| search := search acme_answers; seed := fun k => 17 + 5 * k;
     uuid := uuid acme_answers; publish_failure := publish_failure acme_answers;
     file := file acme_answers |}.

Lemma findContravention_order_independent_witness :
  fst (findContravention acme_answers "AB12CDE" ready_state)
  = fst (findContravention acme_answers_reordered "AB12CDE"
           (mkState (initDataSources []) 3 [])).
Proof.
  apply (findContravention_order_independent acme_answers
           acme_answers_reordered "AB12CDE"
           (fun d => search acme_answers 0%nat d "AB12CDE")
           ready_state (mkState (initDataSources []) 3 [])).
  - reflexivity.
  - reflexivity.
  - reflexivity.
  - intros name d _. destruct d; cbn; auto; left; discriminate.
  - intros n1 d1 n2 d2 c1 c2 _ _.
    destruct d1; try discriminate; destruct d2; try discriminate.
    cbn. congruence.
Defined.

End Vehicle.

(** * The command line (main.go) *)

Module Cli.

(** [Flags]. *)
Record Flags : Type := mkFlags {
  ProjectID : string;
  UseEmulator : bool;
  CredFile : string;
  VRM : string;
  Company : string;
  BatchFile : string
}.

(** The errors of [parseAndValidateFlags]. *)
Inductive flag_error : Type :=
| MissingProject
| BatchWithVehicle
| BatchFileMissing (path : string)
| CompanyWithoutVRM.

Definition flag_error_string (e : flag_error) : string :=
  match e with
  | MissingProject =>
      "missing required flag: -project (required for both emulator and production)"
  | BatchWithVehicle =>
      "batch file cannot be used together with VRM or company flags"
  | BatchFileMissing path => "batch file does not exist: " ++ path
  | CompanyWithoutVRM => "company flag requires VRM flag to be set"
  end.

Definition empty (s : string) : bool := String.eqb s "".

(** [parseAndValidateFlags], from the values [flag.Parse] has stored;
    [not_exist path] is [os.IsNotExist] of the error of [os.Stat path]. *)
Definition parseAndValidateFlags (given : Flags) (not_exist : string -> bool)
  : Flags + flag_error :=
  if empty (ProjectID given) then inr MissingProject
  else if negb (empty (BatchFile given)) then
    if negb (empty (VRM given)) || negb (empty (Company given))
    then inr BatchWithVehicle
    else if not_exist (BatchFile given)
         then inr (BatchFileMissing (BatchFile given))
         else inl given
  else if negb (empty (Company given)) && empty (VRM given)
       then inr CompanyWithoutVRM
       else inl given.

(** What the Pub/Sub service answers to [createTopic]. *)
Inductive topic_answers : Type :=
| TopicClientFails (msg : string)
| TopicExistsFails (msg : string)
| TopicExists
| TopicMissing (create_failure : option string).

(** [createTopic]: the error it returns, if any. *)
Definition createTopic (a : topic_answers) : option string :=
  match a with
  | TopicClientFails m => Some ("failed to create pubsub client: " ++ m)
  | TopicExistsFails m => Some m
  | TopicExists => None
  | TopicMissing failure => failure
  end.

(** The errors [run] returns, one per [fmt.Errorf] of [run]. *)
Inductive run_error : Type :=
| EFlags (e : flag_error)
| EStartEmulator (e : error)
| ECreateTopic (msg : string)
| ECreateClient (msg : string)
| EBatch (e : Vehicle.error)
| ECheck (e : Vehicle.error).

Definition run_error_string (e : run_error) : string :=
  match e with
  | EFlags f => flag_error_string f
  | EStartEmulator e => "failed to start emulator: " ++ Error_string e
  | ECreateTopic m => "failed to create topic: " ++ m
  | ECreateClient m => "failed to create pubsub client: " ++ m
  | EBatch e => "failed to process batch file: " ++ Vehicle.Error_string e
  | ECheck e => "failed to check vehicle: " ++ Vehicle.Error_string e
  end.

(** How [run] ends: it returns nil, returns an error, or panics. *)
Inductive ending : Type :=
| Done
| Failed (e : run_error)
| Crashed.

(** Everything [run] meets: the flags, the file system, the value of
    PUBSUB_EMULATOR_HOST, what the emulator's startup meets, the exit of
    the emulator (with the error of [cmd.Wait]) if its watcher notices
    one before [run] is over, and the answers of Pub/Sub and of the data
    sources. *)
Record surroundings : Type := mkSurroundings {
  given : Flags;
  not_exist : string -> bool;
  env0 : option string;
  startup : scenario;
  crash : option (option string);
  topic : topic_answers;
  client_failure : option string;
  checks : Vehicle.env
}.

(** What [run] leaves: its ending, the emulator's world when one was
    built, and the state of the checks. *)
Record outcome : Type := mkOutcome {
  result : ending;
  emulator : option world;
  vehicle : Vehicle.state
}.

(** The data sources before [initDataSources]: an empty map. *)
Definition no_checks : Vehicle.state := Vehicle.mkState [] 0 [].

Definition ending_of (wrap : Vehicle.error -> run_error)
  (r : Vehicle.result unit) : ending :=
  match r with
  | Vehicle.Ok _ => Done
  | Vehicle.Err e => Failed (wrap e)
  | Vehicle.Panicked => Crashed
  end.

(** [run] from [createTopic] to its return statement. *)
Definition serve (x : surroundings) (flags : Flags) : ending * Vehicle.state :=
  match createTopic (topic x) with
  | Some m => (Failed (ECreateTopic m), no_checks)
  | None =>
      let st := Vehicle.mkState (Vehicle.initDataSources []) 0 [] in
      match client_failure x with
      | Some m => (Failed (ECreateClient m), st)
      | None =>
          if negb (empty (BatchFile flags)) then
            let (r, st') :=
              Vehicle.processBatchFile (checks x) (BatchFile flags) st in
            (ending_of EBatch r, st')
          else if negb (empty (VRM flags)) && negb (empty (Company flags)) then
            let (r, st') :=
              Vehicle.checkVehicle (checks x) (VRM flags) (Company flags) st in
            (ending_of ECheck r, st')
          else (Done, st)
      end
  end.

(** [run]; [None] while [Start] has not returned.  [emulator.Stop()] is
    deferred right after a successful [Start] and so runs on every way
    out of [serve], a panic included. *)
Definition run (os : host) (x : surroundings) : option outcome :=
  match parseAndValidateFlags (given x) (not_exist x) with
  | inr e => Some (mkOutcome (Failed (EFlags e)) None no_checks)
  | inl flags =>
      if UseEmulator flags then
        match Start os (startup x) (fresh os (ProjectID flags) 8085 (env0 x)) with
        | None => None
        | Some (w, Some e) =>
            Some (mkOutcome (Failed (EStartEmulator e)) (Some w) no_checks)
        | Some (w, None) =>
            let (r, st) := serve x flags in
            let w :=
              match crash x with
              | Some cause => crash_under_lock cause w
              | None => w
              end in
            Some (mkOutcome r (Some (Stop os w)) st)
        end
      else
        let (r, st) := serve x flags in
        Some (mkOutcome r None st)
  end.

(** ** Concrete runs *)

(** [-project=test-project -emulator -vrm=AB12CDE -company="Somebody Else
    Ltd"], with an emulator that comes up and data sources none of which
    knows the vehicle as a hirer's. *)
Definition unknown_company_run : surroundings :=
  {| given := mkFlags "test-project" true "" "AB12CDE" "Somebody Else Ltd" "";
     not_exist := fun _ => true;
     env0 := None;
     startup := sc_ready;
     crash := None;
     topic := TopicMissing None;
     client_failure := None;
     checks := Vehicle.nobody_answers |}.


(** ** Flags *)

Lemma empty_spec (s : string) : empty s = true <-> s = "".
Proof. apply String.eqb_eq. Qed.

Lemma not_empty_spec (s : string) : empty s = false <-> s <> "".
Proof. apply String.eqb_neq. Qed.

(** The flags are accepted, unchanged, exactly when a project is named,
    a batch file comes without VRM and company and is not reported
    missing, and a company comes with a VRM.  A VRM without a company is
    accepted. *)
Theorem accepted_flags
  (given : Flags) (not_exist : string -> bool) (flags : Flags) :
  parseAndValidateFlags given not_exist = inl flags
  <-> flags = given
      /\ ProjectID given <> ""
      /\ (BatchFile given <> "" ->
          VRM given = "" /\ Company given = ""
          /\ not_exist (BatchFile given) = false)
      /\ (Company given <> "" -> VRM given <> "").
Proof.
  unfold parseAndValidateFlags.
  destruct (empty (ProjectID given)) eqn:Ep;
    destruct (empty (BatchFile given)) eqn:Eb;
    destruct (empty (VRM given)) eqn:Ev;
    destruct (empty (Company given)) eqn:Ec;
    try destruct (not_exist (BatchFile given)) eqn:En;
    cbn [negb orb andb];
    rewrite ?empty_spec, ?not_empty_spec in *;
    (split;
     [intros H; try discriminate H; injection H as <-;
      repeat split; try assumption; try congruence;
      try (intros; congruence)
     |intros [-> [Hp [Hb Hc]]]; try reflexivity; exfalso;
      try (now apply Hp);
      try (destruct (Hb Eb) as [? [? ?]]; congruence);
      try (now apply (Hc Ec))]).
Qed.

(** ** The run *)




(** No data source is asked and nothing is logged for a check unless
    everything before it went well: the topic exists or was created, the
    client was built, the emulator (when asked for) came up, and the
    flags name a batch file or both a VRM and a company. *)
Theorem checks_need_everything_ready
  (os : host) (x : surroundings) (o : outcome) (flags : Flags) :
  parseAndValidateFlags (given x) (not_exist x) = inl flags ->
  run os x = Some o ->
  Vehicle.trace (vehicle o) <> [] ->
  createTopic (topic x) = None
  /\ client_failure x = None
  /\ (BatchFile flags <> "" \/ (VRM flags <> "" /\ Company flags <> ""))
  /\ (UseEmulator flags = true ->
      exists w,
        Start os (startup x) (fresh os (ProjectID flags) 8085 (env0 x))
        = Some (w, None)).
Proof.
  intros Hflags Hrun Htrace.
  assert (Hserve : Vehicle.trace (snd (serve x flags)) <> [] ->
                   createTopic (topic x) = None
                   /\ client_failure x = None
                   /\ (BatchFile flags <> ""
                       \/ (VRM flags <> "" /\ Company flags <> ""))).
  { unfold serve.
    destruct (createTopic (topic x)); [intros H; now contradiction H|].
    destruct (client_failure x); [intros H; now contradiction H|].
    destruct (empty (BatchFile flags)) eqn:Eb; cbn [negb].
    - destruct (empty (VRM flags)) eqn:Ev; cbn [negb andb];
        [intros H; now contradiction H|].
      destruct (empty (Company flags)) eqn:Ec; cbn [negb andb];
        [intros H; now contradiction H|].
      intros _. apply not_empty_spec in Ev, Ec. auto.
    - intros _. apply not_empty_spec in Eb. auto. }
  unfold run in Hrun. rewrite Hflags in Hrun.
  destruct (UseEmulator flags).
  - destruct (Start os (startup x) (fresh os (ProjectID flags) 8085 (env0 x)))
      as [[w [e|]]|]; [| |discriminate].
    + injection Hrun as <-. now contradiction Htrace.
    + destruct (serve x flags) as [r st]. injection Hrun as <-.
      destruct (Hserve Htrace) as [Ht [Hc Hw]].
      repeat split; try assumption. intros _. now exists w.
  - destruct (serve x flags) as [r st]. injection Hrun as <-.
    destruct (Hserve Htrace) as [Ht [Hc Hw]].
    repeat split; try assumption. discriminate.
Qed.

Lemma checks_need_everything_ready_witness :
  createTopic (topic unknown_company_run) = None
  /\ client_failure unknown_company_run = None.
Proof.
  destruct (run linux unknown_company_run) as [o|] eqn:Er;
    [|vm_compute in Er; discriminate Er].
  destruct (checks_need_everything_ready linux unknown_company_run o
              (given unknown_company_run)) as [Ht [Hc _]].
  - reflexivity.
  - exact Er.
  - vm_compute in Er. injection Er as <-. discriminate.
  - split; [exact Ht|exact Hc].
Defined.



End Cli.
